(** * gradcmp_optim: the adaptive continuous-momentum optimizer

    A shallow embedding of [gradcmp_optim/optimizer.py] (class [Optimizer],
    methods [__init__], [reset] and [step]) and the properties of its
    accept/reject step-size control.

    Numbers.  Python floats and tensor entries are idealised as real numbers
    ([R]): rounding, overflow, NaN and infinities are not represented.  What
    Python reports as an exception on scalars (division by zero, the square
    root of a negative number, a missing dictionary key) is explicit in the
    [result] type.

    Tensors.  A tensor is the flat list of its entries.  torch keeps the shape
    of [p.grad] equal to the shape of [p], and every tensor the optimizer
    stores for [p] is a copy of one of the two, so the binary operations below
    are only ever meant for lists of equal length. *)

From Stdlib Require Import Reals Lra Lia List ZArith Bool.
From Stdlib Require PrimFloat.
Import ListNotations.
Open Scope R_scope.

(** ** Exceptions and the error monad *)

Inductive exception : Type :=
| ZeroDivisionError   (* float division by zero, 0.0 ** negative *)
| ValueError          (* math.sqrt of a negative number, empty parameter list *)
| KeyError            (* param_state[...] on an absent key *)
| RuntimeError.       (* torch: a complex scalar applied to a real tensor *)

Inductive result (A : Type) : Type :=
| Ok (a : A)
| Raise (e : exception).

Arguments Ok {A} a.
Arguments Raise {A} e.

Definition bind {A B : Type} (m : result A) (k : A -> result B) : result B :=
  match m with
  | Ok a => k a
  | Raise e => Raise e
  end.

Notation "x <- m ;; k" := (bind m (fun x => k))
  (at level 61, m at next level, right associativity).
Notation "' pat <- m ;; k" := (bind m (fun x => match x with pat => k end))
  (at level 61, pat pattern, m at next level, right associativity).

(** ** Python scalar operations *)

Module Py.

(** [a / b] on floats. *)
Definition truediv (a b : R) : result R :=
  if Req_dec_T b 0 then Raise ZeroDivisionError else Ok (a / b).

(** [math.sqrt]. *)
Definition math_sqrt (a : R) : result R :=
  if Rlt_dec a 0 then Raise ValueError else Ok (sqrt a).

(** [math.exp]. *)
Definition math_exp (a : R) : R := exp a.

(** Whether a float holds an integer value. *)
Definition is_integer (y : R) : bool :=
  if Req_dec_T y (IZR (Int_part y)) then true else false.

(** [x ** y] on floats: a zero base gives 0, 1 or an exception according to
    the sign of the exponent; a negative base with a fractional exponent
    gives a complex number, which the tensor operations that follow refuse. *)
Definition pow (x y : R) : result R :=
  if Rlt_dec 0 x then Ok (Rpower x y)
  else if Req_dec_T x 0 then
    if Rlt_dec 0 y then Ok 0
    else if Req_dec_T y 0 then Ok 1
    else Raise ZeroDivisionError
  else
    if is_integer y then Ok (powerRZ x (Int_part y))
    else Raise RuntimeError.

(** [d[k]] on a dictionary entry that may be absent. *)
Definition getitem {A : Type} (v : option A) : result A :=
  match v with
  | Some a => Ok a
  | None => Raise KeyError
  end.

End Py.

(** ** Tensors *)

Definition Tensor : Type := list R.

Module Tensor.

Fixpoint map2 (f : R -> R -> R) (a b : Tensor) : Tensor :=
  match a, b with
  | x :: a', y :: b' => f x y :: map2 f a' b'
  | _, _ => []
  end.

(** [a.sum().item()] *)
Definition sum (a : Tensor) : R := fold_right Rplus 0 a.

(** [a * b], entry by entry *)
Definition mul (a b : Tensor) : Tensor := map2 Rmult a b.

(** [a + b] *)
Definition add (a b : Tensor) : Tensor := map2 Rplus a b.

(** [a.norm()], the 2-norm *)
Definition norm (a : Tensor) : R := sqrt (sum (mul a a)).

(** [torch.zeros_like(a)] *)
Definition zeros_like (a : Tensor) : Tensor := map (fun _ => 0) a.

(** [c * a] for a scalar [c] *)
Definition scale (c : R) (a : Tensor) : Tensor := map (Rmult c) a.

(** [-a] *)
Definition neg (a : Tensor) : Tensor := map Ropp a.

(** [v.mul_(x)] *)
Definition mul_ (v : Tensor) (x : R) : Tensor := map (fun vi => vi * x) v.

(** [v.add_(alpha, g)]: [v + alpha * g] *)
Definition add_ (v : Tensor) (alpha : R) (g : Tensor) : Tensor :=
  map2 (fun vi gi => vi + alpha * gi) v g.

End Tensor.

(** ** Data model *)

(** [self.state[p]]: a dictionary with the keys ['grad'], ['param'],
    ['velocity'] and ['new_velocity'], each of which may be absent. *)
Record ParamState : Type := mkParamState {
  st_grad : option Tensor;
  st_param : option Tensor;
  st_velocity : option Tensor;
  st_new_velocity : option Tensor
}.

Definition empty_state : ParamState := mkParamState None None None None.

(** A parameter [p] of a group: its value [p.data], its gradient [p.grad]
    ([None] when the provider supplied none) and, since [self.state] is keyed
    by the parameter object, its entry [self.state[p]]. *)
Record Param : Type := mkParam {
  p_data : Tensor;
  p_grad : option Tensor;
  p_state : ParamState
}.

(** The keys ['step'], ['t'] and ['accepted'] of a group.  Only [reset] creates
    them, all three at once, so they are present or absent together. *)
Record Control : Type := mkControl {
  ctl_step : Z;
  ctl_t : R;
  ctl_accepted : bool
}.

(** One entry of [self.param_groups]. *)
Record Group : Type := mkGroup {
  g_params : list Param;
  g_tau : R;
  g_dt : R;
  g_low_bound : R;
  g_high_bound : R;
  g_control : option Control     (* [None]: ['step' not in group] *)
}.

(** [self.param_groups], with [self.state] stored in the parameters. *)
Definition Optimizer : Type := list Group.

Definition Loss : Type := R.

(** ** Construction *)

(** The [params] argument of the constructor: tensors, or dictionaries that
    name the parameters of a group and may override the defaults. *)
Record GroupDict : Type := mkGroupDict {
  gd_params : list (Tensor * option Tensor);
  gd_tau : option R;
  gd_dt : option R;
  gd_low_bound : option R;
  gd_high_bound : option R
}.

Inductive ParamsArg : Type :=
| Tensors (ps : list (Tensor * option Tensor))
| ParamGroups (gs : list GroupDict).

Record Defaults : Type := mkDefaults {
  d_dt : R;
  d_tau : R;
  d_low_bound : R;
  d_high_bound : R
}.

Definition fresh_parameter (p : Tensor * option Tensor) : Param :=
  mkParam (fst p) (snd p) empty_state.

Definition setdefault (v : option R) (d : R) : R :=
  match v with
  | Some x => x
  | None => d
  end.

(** [torch.optim.Optimizer.add_param_group]: the defaults fill the keys the
    dictionary does not give. *)
Definition add_param_group (d : Defaults) (gd : GroupDict) : Group :=
  mkGroup (map fresh_parameter (gd_params gd))
          (setdefault (gd_tau gd) (d_tau d))
          (setdefault (gd_dt gd) (d_dt d))
          (setdefault (gd_low_bound gd) (d_low_bound d))
          (setdefault (gd_high_bound gd) (d_high_bound d))
          None.

(** [torch.optim.Optimizer.__init__(params, defaults)]: an empty [params] is a
    [ValueError]; tensors make one group. *)
Definition Optimizer_init (params : ParamsArg) (d : Defaults) : result Optimizer :=
  match params with
  | Tensors [] => Raise ValueError
  | Tensors ps => Ok [add_param_group d (mkGroupDict ps None None None None)]
  | ParamGroups [] => Raise ValueError
  | ParamGroups gs => Ok (map (add_param_group d) gs)
  end.

(** The defaults of the keyword arguments of [__init__]. *)
Definition default_dt : R := 1.
Definition default_low_bound : R := 1e-4.
Definition default_high_bound : R := 1e-3.

(** [Optimizer.__init__(self, params, tau, dt, low_bound, high_bound)] *)
Definition __init__ (params : ParamsArg) (tau dt low_bound high_bound : R)
  : result Optimizer :=
  let defaults := mkDefaults dt tau low_bound high_bound in
  Optimizer_init params defaults.

(** ** reset *)

Definition initial_control : Control := mkControl 0%Z 0 true.

(** Lines 31-38, for one parameter. *)
Definition reset_param (p : Param) : Param :=
  match p_grad p with
  | None => p
  | Some gr =>
      mkParam (p_data p) (p_grad p)
        (mkParamState (Some gr) (Some (p_data p))
                      (Some (Tensor.zeros_like (p_data p)))
                      (st_new_velocity (p_state p)))
  end.

(** Lines 27-38, for one group. *)
Definition reset_group (g : Group) : Group :=
  mkGroup (map reset_param (g_params g))
          (g_tau g) (g_dt g) (g_low_bound g) (g_high_bound g)
          (Some initial_control).

(** [Optimizer.reset(self)]: every group. *)
Definition reset (o : Optimizer) : Optimizer := map reset_group o.

(** ** step: the acceptance test *)

(** Lines 60-70: the loop that accumulates [a2], [b2] and [ab]. *)
Fixpoint gradient_sums (ps : list Param) (acc : R * R * R) : result (R * R * R) :=
  match ps with
  | [] => Ok acc
  | p :: ps' =>
      match p_grad p with
      | None => gradient_sums ps' acc
      | Some pg =>
          grad <- Py.getitem (st_grad (p_state p)) ;;
          let '(a2, b2, ab) := acc in
          gradient_sums ps'
            (a2 + Tensor.norm grad ^ 2,
             b2 + Tensor.norm pg ^ 2,
             ab + Tensor.sum (Tensor.mul grad pg))
      end
  end.

(** Line 71. *)
Definition relnorm_of (s : R * R * R) : result R :=
  let '(a2, b2, ab) := s in
  r <- Py.math_sqrt (a2 * b2) ;;
  Py.truediv (a2 + b2 - 2 * ab) r.

Definition relnorm (g : Group) : result R :=
  s <- gradient_sums (g_params g) (0, 0, 0) ;;
  relnorm_of s.

(** Lines 81-88: the committed state takes the current gradient, the current
    value and the velocity proposed by the previous call. *)
Definition save_param (p : Param) : result Param :=
  match p_grad p with
  | None => Ok p
  | Some pg =>
      nv <- Py.getitem (st_new_velocity (p_state p)) ;;
      Ok (mkParam (p_data p) (p_grad p)
            (mkParamState (Some pg) (Some (p_data p)) (Some nv) (Some nv)))
  end.

Fixpoint save_state (ps : list Param) : result (list Param) :=
  match ps with
  | [] => Ok []
  | p :: ps' =>
      p' <- save_param p ;;
      ps'' <- save_state ps' ;;
      Ok (p' :: ps'')
  end.

(** Lines 59-94: the [else] branch of the initialisation test, for a group
    whose control keys are [c]. *)
Definition acceptance_test (g : Group) (c : Control) : result Group :=
  relnorm <- relnorm g ;;
  if Rlt_dec relnorm (g_high_bound g) then
    let c' := mkControl (ctl_step c + 1) (ctl_t c + g_dt g) true in
    ps <- save_state (g_params g) ;;
    let dt' := if Rlt_dec relnorm (g_low_bound g) then g_dt g * 1.1 else g_dt g in
    Ok (mkGroup ps (g_tau g) dt' (g_low_bound g) (g_high_bound g) (Some c'))
  else
    let c' := mkControl (ctl_step c) (ctl_t c) false in
    Ok (mkGroup (g_params g) (g_tau g) (g_dt g / 10)
                (g_low_bound g) (g_high_bound g) (Some c')).

(** ** step: the proposal *)

(** Lines 108-116: the new velocity from the committed gradient [g] and a copy
    [v] of the committed velocity. *)
Definition propose_velocity (tau dt t : R) (g v : Tensor) : result Tensor :=
  if Rlt_dec 0 tau then
    q <- Py.truediv (- dt) tau ;;
    let x := Py.math_exp q in
    Ok (Tensor.add_ (Tensor.mul_ v x) (- (1 - x)) g)
  else if Rlt_dec tau 0 then
    let mu := - tau in
    q <- Py.truediv t (t + dt) ;;
    x <- Py.pow q mu ;;
    Ok (Tensor.add_ (Tensor.mul_ v x) (- (1 - x)) g)
  else
    Ok (Tensor.neg g).

(** Lines 98-119, for one parameter. *)
Definition propose_param (tau dt t : R) (p : Param) : result Param :=
  match p_grad p with
  | None => Ok p
  | Some _ =>
      let st := p_state p in
      g <- Py.getitem (st_grad st) ;;
      v0 <- Py.getitem (st_velocity st) ;;
      v <- propose_velocity tau dt t g v0 ;;
      x0 <- Py.getitem (st_param st) ;;
      Ok (mkParam (Tensor.add x0 (Tensor.scale dt v)) (p_grad p)
            (mkParamState (st_grad st) (st_param st) (st_velocity st) (Some v)))
  end.

Fixpoint propose_params (tau dt t : R) (ps : list Param) : result (list Param) :=
  match ps with
  | [] => Ok []
  | p :: ps' =>
      p' <- propose_param tau dt t p ;;
      ps'' <- propose_params tau dt t ps' ;;
      Ok (p' :: ps'')
  end.

(** Lines 97-119, for a group whose control keys are [c]. *)
Definition propose (g : Group) (c : Control) : result Group :=
  ps <- propose_params (g_tau g) (g_dt g) (ctl_t c) (g_params g) ;;
  Ok (mkGroup ps (g_tau g) (g_dt g) (g_low_bound g) (g_high_bound g) (g_control g)).

(** ** step: the loop over the groups *)

(** [l[i] = x] on a list; nothing happens out of range (the loop below never
    is). *)
Fixpoint update {A : Type} (i : nat) (x : A) (l : list A) : list A :=
  match l, i with
  | [], _ => []
  | _ :: l', O => x :: l'
  | y :: l', S i' => y :: update i' x l'
  end.

(** Lines 53-119: the body of the loop, at the group [g] that
    [self.param_groups] holds at index [i].  The groups are shared
    dictionaries: the [reset] that an uninitialised group triggers rewrites
    every group of the optimizer, and the loop goes on with them. *)
Definition step_group (o : Optimizer) (i : nat) (g : Group) : result Optimizer :=
  match g_control g with
  | None =>
      let o1 := reset o in
      let g1 := reset_group g in
      g2 <- propose g1 initial_control ;;
      Ok (update i g2 o1)
  | Some c =>
      g1 <- acceptance_test g c ;;
      c1 <- Py.getitem (g_control g1) ;;
      g2 <- propose g1 c1 ;;
      Ok (update i g2 o)
  end.

(** Line 52: [for group in self.param_groups], from index [i], for at most
    [n] groups. *)
Fixpoint step_loop (n i : nat) (o : Optimizer) : result Optimizer :=
  match n with
  | O => Ok o
  | S n' =>
      match nth_error o i with
      | None => Ok o
      | Some g =>
          o' <- step_group o i g ;;
          step_loop n' (S i) o'
      end
  end.

Definition step_groups (o : Optimizer) : result Optimizer :=
  step_loop (length o) 0 o.

(** ** The gradient provider and the closure *)

(** What the provider does to the parameters between or during calls (a
    backward pass, [zero_grad]): a new value and gradient for the parameter at
    position [k] of group [i].  It has no access to the optimizer's own state. *)
Definition Provider : Type :=
  nat -> nat -> Tensor -> option Tensor -> Tensor * option Tensor.

Fixpoint mapi_from {A B : Type} (f : nat -> A -> B) (k : nat) (l : list A) : list B :=
  match l with
  | [] => []
  | x :: l' => f k x :: mapi_from f (S k) l'
  end.

Definition provide_param (f : Provider) (i k : nat) (p : Param) : Param :=
  let '(d, gr) := f i k (p_data p) (p_grad p) in
  mkParam d gr (p_state p).

Definition provide_group (f : Provider) (i : nat) (g : Group) : Group :=
  mkGroup (mapi_from (provide_param f i) 0 (g_params g))
          (g_tau g) (g_dt g) (g_low_bound g) (g_high_bound g) (g_control g).

Definition provide (f : Provider) (o : Optimizer) : Optimizer :=
  mapi_from (provide_group f) 0 o.

(** The [closure] argument of [step]: it re-evaluates the model, which gives the
    loss and new gradients. *)
Definition Closure : Type := Optimizer -> Loss * Provider.

(** ** step *)

(** [Optimizer.step(self, closure=None)]: the value returned and the optimizer
    after the call. *)
(** Lines 48-50: the loss, if a closure is given, and the optimizer once the
    closure has run. *)
Definition call_closure (closure : option Closure) (o : Optimizer)
  : option Loss * Optimizer :=
  match closure with
  | None => (None, o)
  | Some c => let '(l, f) := c o in (Some l, provide f o)
  end.

Definition step (closure : option Closure) (o : Optimizer)
  : result (option Loss * Optimizer) :=
  let '(loss, o1) := call_closure closure o in
  o2 <- step_groups o1 ;;
  Ok (loss, o2).

(** ** Sequences of calls *)

Inductive call : Type :=
| CallReset
| CallStep (closure : option Closure)
| CallProvide (f : Provider).

Fixpoint run (cs : list call) (o : Optimizer) : result Optimizer :=
  match cs with
  | [] => Ok o
  | CallReset :: cs' => run cs' (reset o)
  | CallStep closure :: cs' =>
      '(_, o') <- step closure o ;;
      run cs' o'
  | CallProvide f :: cs' => run cs' (provide f o)
  end.

(** The body of the loop at an initialised group, as a function of the group
    alone: the acceptance test, then the proposal. *)
Definition advance_group (g : Group) : result Group :=
  c <- Py.getitem (g_control g) ;;
  g1 <- acceptance_test g c ;;
  c1 <- Py.getitem (g_control g1) ;;
  propose g1 c1.

(** ** Observations on the state *)

(** The committed state of a parameter: the keys ['grad'], ['param'] and
    ['velocity'] of its state. *)
Definition committed (p : Param) : option Tensor * option Tensor * option Tensor :=
  (st_grad (p_state p), st_param (p_state p), st_velocity (p_state p)).

Definition is_some {A : Type} (v : option A) : bool :=
  match v with
  | Some _ => true
  | None => false
  end.

(** A parameter with a gradient has its three committed keys. *)
Definition has_committed (p : Param) : bool :=
  implb (is_some (p_grad p))
        (is_some (st_grad (p_state p)) && is_some (st_param (p_state p))
         && is_some (st_velocity (p_state p))).

(** A parameter with a gradient has the key ['new_velocity']. *)
Definition has_proposal (p : Param) : bool :=
  implb (is_some (p_grad p)) (is_some (st_new_velocity (p_state p))).

(** ** The scenario of one scalar parameter

    One group with one scalar parameter at [x0], [tau = 1], [dt = 1],
    [low_bound = 0.01], [high_bound = 0.1], and the gradient [2.0] at both
    calls. *)

Definition scenario_params (x0 : R) : ParamsArg := Tensors [([x0], Some [2])].

(** The velocity the first call proposes. *)
Definition scenario_v1 : R := - (1 - exp (-1)) * 2.

(** The velocity the second call proposes. *)
Definition scenario_v2 : R := exp (- 1.1) * scenario_v1 - (1 - exp (- 1.1)) * 2.

Definition scenario_constructed (x0 : R) : Group :=
  mkGroup [mkParam [x0] (Some [2]) empty_state] 1 1 0.01 0.1 None.

Definition scenario_first (x0 : R) : Group :=
  mkGroup
    [mkParam [x0 + scenario_v1] (Some [2])
       (mkParamState (Some [2]) (Some [x0]) (Some [0]) (Some [scenario_v1]))]
    1 1 0.01 0.1 (Some (mkControl 0 0 true)).

Definition scenario_second (x0 : R) : Group :=
  mkGroup
    [mkParam [x0 + scenario_v1 + 1.1 * scenario_v2] (Some [2])
       (mkParamState (Some [2]) (Some [x0 + scenario_v1])
          (Some [scenario_v1]) (Some [scenario_v2]))]
    1 1.1 0.01 0.1 (Some (mkControl 1 1 true)).

(** The optimizer after the first call of the scenario when the provider then
    reports the opposite gradient, [-2.0]. *)
Definition scenario_reversed (x0 : R) : Group :=
  mkGroup
    [mkParam [x0 + scenario_v1] (Some [-2])
       (mkParamState (Some [2]) (Some [x0]) (Some [0]) (Some [scenario_v1]))]
    1 1 0.01 0.1 (Some (mkControl 0 0 true)).

(** An initialised group whose committed and current gradients are both the
    zero vector. *)
Definition flat_group (x0 : R) : Group :=
  mkGroup
    [mkParam [x0] (Some [0])
       (mkParamState (Some [0]) (Some [x0]) (Some [0]) (Some [0]))]
    1 1 0.01 0.1 (Some (mkControl 0 0 true)).

(** A closure that reports the loss [l] and leaves the parameters and their
    gradients as they are. *)
Definition constant_closure (l : Loss) : Closure :=
  fun _ => (l, fun _ _ d gr => (d, gr)).

(** Whether the [params] argument of the constructor names anything. *)
Definition nonempty_params (params : ParamsArg) : bool :=
  match params with
  | Tensors [] => false
  | ParamGroups [] => false
  | _ => true
  end.

(** The step size of a group is positive. *)
Definition dt_positive (g : Group) : Prop := 0 < g_dt g.

(** ** Further observations *)

(** The settings of a group that the optimizer reads and never writes. *)
Definition settings (g : Group) : R * R * R :=
  (g_tau g, g_low_bound g, g_high_bound g).

(** What the provider owns of a parameter: its value and its gradient. *)
Definition live (p : Param) : Tensor * option Tensor := (p_data p, p_grad p).

(** The sum of the squares of the current gradients of a list of parameters. *)
Fixpoint energy (ps : list Param) : R :=
  match ps with
  | [] => 0
  | p :: ps' =>
      match p_grad p with
      | Some pg => Tensor.sum (Tensor.mul pg pg) + energy ps'
      | None => energy ps'
      end
  end.

(** The committed gradient of a parameter is its current gradient. *)
Definition gradient_unchanged (p : Param) : Prop :=
  match p_grad p with
  | Some pg => st_grad (p_state p) = Some pg
  | None => True
  end.

(** The control keys of a group count time soundly: [t] and the step count
    are not negative, and [t] is 0 exactly as long as no step was accepted. *)
Definition control_sound (g : Group) : Prop :=
  match g_control g with
  | Some c =>
      0 <= ctl_t c /\ (0 <= ctl_step c)%Z /\ (ctl_step c = 0%Z <-> ctl_t c = 0)
  | None => True
  end.

(** Where a call that returns leaves a parameter that has a gradient: with its
    four keys, at the committed position moved by [dt] times the proposed
    velocity. *)
Definition at_proposal (dt : R) (p : Param) : Prop :=
  match p_grad p with
  | None => True
  | Some _ =>
      exists g x0 v0 v,
        p_state p = mkParamState (Some g) (Some x0) (Some v0) (Some v) /\
        p_data p = Tensor.add x0 (Tensor.scale dt v)
  end.

(** [p'] has the gradient of [p], and is [p] itself when [p] has none. *)
Definition passed_over (p p' : Param) : Prop :=
  p_grad p' = p_grad p /\ (p_grad p = None -> p' = p).

(** A parameter that no call has touched, without a gradient. *)
Definition frozen_param (y0 : R) : Param := mkParam [y0] None empty_state.

(** The scenario with a second parameter that has no gradient, as constructed
    and after the first call. *)
Definition scenario_frozen (x0 y0 : R) : Group :=
  mkGroup [mkParam [x0] (Some [2]) empty_state; frozen_param y0]
          1 1 0.01 0.1 None.

Definition scenario_frozen_first (x0 y0 : R) : Group :=
  mkGroup
    [mkParam [x0 + scenario_v1] (Some [2])
       (mkParamState (Some [2]) (Some [x0]) (Some [0]) (Some [scenario_v1]));
     frozen_param y0]
    1 1 0.01 0.1 (Some (mkControl 0 0 true)).

(** The layout of a group: its settings and the number of its parameters. *)
Definition layout (g : Group) : R * R * R * nat :=
  (settings g, length (g_params g)).



(** What the call after the first makes of the scenario when the provider
    reports the opposite gradient: the step is rejected, [dt] is divided by
    10 and the proposal is made again from the committed state. *)
Definition scenario_reversed_after (x0 : R) : Group :=
  mkGroup
    [mkParam [x0 + 1 / 10 * (- (1 - exp (- (1 / 10))) * 2)] (Some [-2])
       (mkParamState (Some [2]) (Some [x0]) (Some [0])
          (Some [- (1 - exp (- (1 / 10))) * 2]))]
    1 (1 / 10) 0.01 0.1 (Some (mkControl 0 0 false)).

(** A parameter, and a group, with the current and the committed gradients
    multiplied by [k] (the gradients of a loss multiplied by [k]). *)
Definition scale_gradient (k : R) (p : Param) : Param :=
  mkParam (p_data p) (option_map (Tensor.scale k) (p_grad p))
    (mkParamState (option_map (Tensor.scale k) (st_grad (p_state p)))
                  (st_param (p_state p)) (st_velocity (p_state p))
                  (st_new_velocity (p_state p))).

Definition scale_gradients (k : R) (g : Group) : Group :=
  mkGroup (map (scale_gradient k) (g_params g))
          (g_tau g) (g_dt g) (g_low_bound g) (g_high_bound g) (g_control g).

(** ** The scalar keys of a group in binary64

    The keys ['dt'], ['t'], ['low_bound'] and ['high_bound'] of a group, the
    sums [a2], [b2], [ab] (each the [.item()] of a tensor) and [relnorm] are
    Python floats.  Below are line 71 and the updates of lines 73-77 and 90-94
    on these keys with the binary64 operations of the machine, for the
    questions that exact arithmetic cannot answer.  These lines are the only
    ones that write the keys: the proposal (lines 97-119) reads ['dt'] and
    ['t'] and writes the parameters and their state. *)

Module Binary64.

Import PrimFloat.

Record Scalars : Type := mkScalars {
  s_dt : float;
  s_t : float;
  s_step : Z;
  s_accepted : bool;
  s_low_bound : float;
  s_high_bound : float
}.

(** Line 71: [math.sqrt] refuses a negative number, the division a zero. *)
Definition relnorm (a2 b2 ab : float) : result float :=
  let numerator := (a2 + b2 - 2 * ab)%float in
  let product := (a2 * b2)%float in
  if (product <? 0)%float then Raise ValueError
  else
    let root := sqrt product in
    if (root =? 0)%float then Raise ZeroDivisionError
    else Ok (numerator / root)%float.

(** Lines 73-77 and 90-94. *)
Definition control (r : float) (s : Scalars) : Scalars :=
  if (r <? s_high_bound s)%float then
    mkScalars (if (r <? s_low_bound s)%float then (s_dt s * 1.1)%float else s_dt s)
              (s_t s + s_dt s)%float (s_step s + 1)%Z true
              (s_low_bound s) (s_high_bound s)
  else
    mkScalars (s_dt s / 10)%float (s_t s) (s_step s) false
              (s_low_bound s) (s_high_bound s).

(** Lines 71-94 on the scalar keys, for the sums that lines 60-70 found. *)
Definition acceptance (a2 b2 ab : float) (s : Scalars) : result Scalars :=
  r <- relnorm a2 b2 ab ;;
  Ok (control r s).

(** [n] calls in a row whose sums are [a2], [b2], [ab]. *)
Fixpoint calls (n : nat) (a2 b2 ab : float) (s : Scalars) : result Scalars :=
  match n with
  | O => Ok s
  | S n' =>
      s' <- acceptance a2 b2 ab s ;;
      calls n' a2 b2 ab s'
  end.

Definition positive (x : float) : bool := (0 <? x)%float.

(** The scalar keys of the scenario after its first call: [dt = 1], [t = 0],
    step count 0, [low_bound = 0.01], [high_bound = 0.1]. *)
Definition scenario_scalars : Scalars :=
  mkScalars 1%float 0%float 0%Z true 0.01%float 0.1%float.

(** [n] further calls of the scenario in which the provider answers every
    proposal with the gradient [-2.0], against the committed gradient [2.0]:
    [a2 = b2 = 4.0] and [ab = -4.0], whatever the precision of the tensors. *)
Definition four : float := 4%float.

Definition opposite_calls (n : nat) : result Scalars :=
  calls n four four (- four)%float scenario_scalars.

End Binary64.

(** * Properties *)

(** ** The error monad and the scalar operations *)

Lemma bind_Ok {A B : Type} (m : result A) (k : A -> result B) (b : B) :
  bind m k = Ok b -> exists a, m = Ok a /\ k a = Ok b.
Proof.
  destruct m as [a|e]; simpl; intros H.
  - exists a. split; [reflexivity | exact H].
  - discriminate H.
Qed.

Ltac inv_bind H :=
  let a := fresh "a" in
  let Ha := fresh "Ha" in
  apply bind_Ok in H; destruct H as (a & Ha & H).

Lemma truediv_ok (a b : R) : b <> 0 -> Py.truediv a b = Ok (a / b).
Proof.
  intros Hb. unfold Py.truediv.
  destruct (Req_dec_T b 0) as [E|_]; [contradiction | reflexivity].
Qed.

Lemma truediv_zero (a b : R) : b = 0 -> Py.truediv a b = Raise ZeroDivisionError.
Proof.
  intros Hb. unfold Py.truediv.
  destruct (Req_dec_T b 0) as [_|N]; [reflexivity | contradiction].
Qed.

Lemma math_sqrt_ok (a : R) : 0 <= a -> Py.math_sqrt a = Ok (sqrt a).
Proof.
  intros Ha. unfold Py.math_sqrt.
  destruct (Rlt_dec a 0) as [L|_]; [lra | reflexivity].
Qed.

Lemma pow_zero_base (x y : R) : x = 0 -> 0 < y -> Py.pow x y = Ok 0.
Proof.
  intros Hx Hy. unfold Py.pow.
  destruct (Rlt_dec 0 x) as [L|_]; [lra|].
  destruct (Req_dec_T x 0) as [_|N]; [|contradiction].
  destruct (Rlt_dec 0 y) as [_|N]; [reflexivity | contradiction].
Qed.

Lemma pow_pos_base (x y : R) : 0 < x -> Py.pow x y = Ok (Rpower x y).
Proof.
  intros Hx. unfold Py.pow.
  destruct (Rlt_dec 0 x) as [_|N]; [reflexivity | contradiction].
Qed.

(** Decisions on concrete reals, where linear arithmetic settles them. *)
Ltac rdec_lt a b :=
  let H := fresh in
  first
    [ assert (H : a < b) by lra;
      destruct (Rlt_dec a b) as [_|?N]; [clear H | exfalso; auto]
    | assert (H : ~ a < b) by lra;
      destruct (Rlt_dec a b) as [?L|_]; [exfalso; auto | clear H] ].

Ltac rdec_eq a b :=
  let H := fresh in
  first
    [ assert (H : a = b) by lra;
      destruct (Req_dec_T a b) as [_|?N]; [clear H | exfalso; auto]
    | assert (H : a <> b) by lra;
      destruct (Req_dec_T a b) as [?E|_]; [exfalso; auto | clear H] ].

Ltac rdec :=
  repeat match goal with
  | |- context [Rlt_dec ?a ?b] => rdec_lt a b
  | |- context [Req_dec_T ?a ?b] => rdec_eq a b
  end.

(** ** Tensors *)

Lemma sum_squares_nonneg (a : Tensor) : 0 <= Tensor.sum (Tensor.mul a a).
Proof.
  induction a as [|x a IH]; simpl.
  - lra.
  - unfold Tensor.sum, Tensor.mul in *. simpl. nra.
Qed.

(** [a.norm().pow(2)] is the sum of the squares of the entries. *)
Lemma norm_pow2 (a : Tensor) : Tensor.norm a ^ 2 = Tensor.sum (Tensor.mul a a).
Proof.
  unfold Tensor.norm. apply pow2_sqrt. apply sum_squares_nonneg.
Qed.

Lemma norm_pow2_nonneg (a : Tensor) : 0 <= Tensor.norm a ^ 2.
Proof. rewrite norm_pow2. apply sum_squares_nonneg. Qed.

(** The sums of the acceptance test: [a2] and [b2] never become negative, so
    [math.sqrt] has no domain error to report. *)
Lemma gradient_sums_nonneg (ps : list Param) (a2 b2 ab a2' b2' ab' : R) :
  0 <= a2 -> 0 <= b2 ->
  gradient_sums ps (a2, b2, ab) = Ok (a2', b2', ab') ->
  0 <= a2' /\ 0 <= b2'.
Proof.
  revert a2 b2 ab. induction ps as [|p ps IH]; simpl; intros a2 b2 ab Ha Hb H.
  - injection H as <- <- <-. auto.
  - destruct (p_grad p) as [pg|]; [|eauto].
    destruct (st_grad (p_state p)) as [gr|]; simpl in H; [|discriminate H].
    apply IH in H; [exact H | |].
    + pose proof (norm_pow2_nonneg gr). lra.
    + pose proof (norm_pow2_nonneg pg). lra.
Qed.

Lemma relnorm_exceptions (g : Group) (e : exception) :
  relnorm g = Raise e -> e = KeyError \/ e = ZeroDivisionError.
Proof.
  unfold relnorm.
  destruct (gradient_sums (g_params g) (0, 0, 0)) as [[[a2 b2] ab]|e'] eqn:Es;
    simpl.
  - destruct (gradient_sums_nonneg _ _ _ _ _ _ _ (Rle_refl 0) (Rle_refl 0) Es)
      as [Ha Hb].
    rewrite math_sqrt_ok by (apply Rmult_le_pos; assumption). simpl.
    unfold Py.truediv. destruct (Req_dec_T (sqrt (a2 * b2)) 0); intros H.
    + injection H as <-. auto.
    + discriminate H.
  - intros H. injection H as <-. left.
    revert Es. generalize (0, 0, 0).
    induction (g_params g) as [|p ps IH]; simpl; intros acc Es; [discriminate Es|].
    destruct (p_grad p) as [pg|]; [|eauto].
    destruct (st_grad (p_state p)) as [gr|]; simpl in Es.
    + destruct acc as [[a2 b2] ab]. eauto.
    + injection Es as <-. reflexivity.
Qed.

Lemma mul__zeros (v : Tensor) : Tensor.mul_ v 0 = Tensor.zeros_like v.
Proof.
  unfold Tensor.mul_, Tensor.zeros_like. apply map_ext. intros x. lra.
Qed.

Lemma add__zeros_neg (v g : Tensor) :
  length v = length g ->
  Tensor.add_ (Tensor.zeros_like v) (- (1 - 0)) g = Tensor.neg g.
Proof.
  revert g. induction v as [|x v IH]; intros [|y g] Hlen; simpl in *;
    try discriminate; [reflexivity|].
  injection Hlen as Hlen.
  unfold Tensor.add_, Tensor.neg, Tensor.zeros_like in *. simpl.
  f_equal; [lra | apply IH; exact Hlen].
Qed.

(** ** Construction with the default arguments *)

Lemma default_configuration_is_valid :
  0 < default_dt /\ 0 < default_low_bound < default_high_bound.
Proof. unfold default_dt, default_low_bound, default_high_bound. lra. Qed.

(** ** Running the model on concrete reals *)

Ltac run_model :=
  cbv -[Rlt_dec Req_dec_T exp sqrt Rplus Rmult Ropp Rminus Rdiv Rinv Rpower
        powerRZ Int_part IZR Rlt Rle pow Z.pow_pos Z.add].

Ltac same_reals :=
  repeat (match goal with
          | |- @eq ?T _ _ => lazymatch T with R => idtac | _ => f_equal end
          end);
  try lra.

(** ** The scenario *)

Lemma scenario_init (x0 : R) :
  __init__ (scenario_params x0) 1 1 0.01 0.1 = Ok [scenario_constructed x0].
Proof. reflexivity. Qed.

Lemma scenario_step1 (x0 : R) :
  step None [scenario_constructed x0] = Ok (None, [scenario_first x0]).
Proof.
  run_model. rdec. run_model. rdec.
  replace (- (1) / 1) with (-1) by lra.
  same_reals.
Qed.

Lemma scenario_relnorm (x0 : R) : relnorm (scenario_first x0) = Ok 0.
Proof.
  unfold relnorm, scenario_first.
  cbn [g_params gradient_sums p_grad p_state st_grad Py.getitem bind].
  rewrite !norm_pow2. unfold Tensor.sum, Tensor.mul, relnorm_of. simpl.
  replace ((0 + (2 * 2 + 0)) * (0 + (2 * 2 + 0))) with (4 * 4) by lra.
  rewrite math_sqrt_ok by lra. simpl.
  rewrite sqrt_square by lra.
  rewrite truediv_ok by lra. f_equal. lra.
Qed.

Lemma scenario_step2 (x0 : R) :
  step None [scenario_first x0] = Ok (None, [scenario_second x0]).
Proof.
  unfold step, call_closure, step_groups. simpl length.
  cbn [step_loop nth_error step_group scenario_first g_control bind].
  unfold acceptance_test.
  fold (scenario_first x0). rewrite scenario_relnorm.
  run_model. rdec. run_model. rdec.
  replace (- (1 * (11 * / 10)) / 1) with (-11 * / 10) by lra.
  same_reals.
Qed.

(** C1 (as amended).  With [tau = 1] the velocity follows the exponential law:
    the first call initialises the committed gradient to [2.0] and the
    committed velocity to [0], proposes [v1 = -(1 - exp(-1)) * 2] and moves the
    parameter to [x0 + v1]; the second call, with the gradient [2.0] again,
    computes [relnorm = 0], accepts, grows [dt] to [1.1] and makes [v1] the
    committed velocity. *)
Theorem scenario_end_to_end (x0 : R) :
  __init__ (scenario_params x0) 1 1 0.01 0.1 = Ok [scenario_constructed x0] /\
  step None [scenario_constructed x0] = Ok (None, [scenario_first x0]) /\
  map st_grad (map p_state (g_params (scenario_first x0))) = [Some [2]] /\
  map st_velocity (map p_state (g_params (scenario_first x0))) = [Some [0]] /\
  map st_new_velocity (map p_state (g_params (scenario_first x0)))
    = [Some [- (1 - exp (-1)) * 2]] /\
  map p_data (g_params (scenario_first x0)) = [[x0 + - (1 - exp (-1)) * 2]] /\
  relnorm (scenario_first x0) = Ok 0 /\
  step None [scenario_first x0] = Ok (None, [scenario_second x0]) /\
  g_dt (scenario_second x0) = 1.1 /\
  g_control (scenario_second x0) = Some (mkControl 1 1 true) /\
  map st_velocity (map p_state (g_params (scenario_second x0)))
    = [Some [- (1 - exp (-1)) * 2]].
Proof.
  repeat split; try reflexivity.
  - apply scenario_step1.
  - apply scenario_relnorm.
  - apply scenario_step2.
Qed.

(** C1 (as stated) fails: from the position [5] the first call does not
    propose the velocity [-2.0], nor move the parameter to [5 - 2.0]. *)
Lemma scenario_velocity_is_not_minus_two :
  ~ (exists g p,
        step None [scenario_constructed 5] = Ok (None, [g]) /\
        g_params g = [p] /\
        st_grad (p_state p) = Some [2] /\
        st_velocity (p_state p) = Some [0] /\
        st_new_velocity (p_state p) = Some [-2] /\
        p_data p = [5 - 2]).
Proof.
  intros (g & p & Hstep & Hp & _ & _ & Hv & _).
  rewrite scenario_step1 in Hstep.
  injection Hstep as <-. simpl in Hp. injection Hp as <-.
  simpl in Hv. injection Hv as Hv. unfold scenario_v1 in Hv.
  pose proof (exp_pos (-1)) as Hpos. lra.
Qed.

(** ** Lists updated by index *)

Lemma length_update {A : Type} (i : nat) (x : A) (l : list A) :
  length (update i x l) = length l.
Proof.
  revert i. induction l as [|y l IH]; intros [|i]; simpl; auto.
Qed.

Lemma nth_error_update_eq {A : Type} (i : nat) (x y : A) (l : list A) :
  nth_error l i = Some y -> nth_error (update i x l) i = Some x.
Proof.
  revert i. induction l as [|z l IH]; intros [|i]; simpl; try discriminate; auto.
Qed.

Lemma nth_error_update_neq {A : Type} (i j : nat) (x : A) (l : list A) :
  i <> j -> nth_error (update i x l) j = nth_error l j.
Proof.
  revert i j. induction l as [|z l IH]; intros [|i] [|j] Hij; simpl; auto.
  contradiction.
Qed.

Lemma Forall_update {A : Type} (P : A -> Prop) (i : nat) (x : A) (l : list A) :
  P x -> Forall P l -> Forall P (update i x l).
Proof.
  intros Hx Hl. revert i.
  induction Hl as [|y l Hy Hl IH]; intros [|i]; simpl; constructor; auto.
Qed.

(** ** The proposal *)

(** Where the velocity law is defined: the power law divides by [t + dt] and
    raises a base that must not be negative. *)
Section Proposal.

Variables tau dt t : R.

Lemma propose_velocity_ok (g v : Tensor) :
  (tau < 0 -> t + dt <> 0 /\ 0 <= t / (t + dt)) ->
  exists v', propose_velocity tau dt t g v = Ok v'.
Proof.
  intros H. unfold propose_velocity.
  destruct (Rlt_dec 0 tau) as [Hpos|Hnpos].
  - rewrite truediv_ok by lra. simpl. eauto.
  - destruct (Rlt_dec tau 0) as [Hneg|Hnneg]; [|eauto].
    destruct (H Hneg) as [Hsum Hq].
    rewrite truediv_ok by exact Hsum. simpl.
    destruct (Req_dec_T (t / (t + dt)) 0) as [Hz|Hnz].
    + rewrite pow_zero_base by lra. simpl. eauto.
    + rewrite pow_pos_base by lra. simpl. eauto.
Qed.

Lemma propose_params_ok (ps : list Param) :
  (tau < 0 -> t + dt <> 0 /\ 0 <= t / (t + dt)) ->
  forallb has_committed ps = true ->
  exists ps', propose_params tau dt t ps = Ok ps'.
Proof.
  intros Hlaw. induction ps as [|p ps IH]; simpl; intros Hc; [eauto|].
  apply andb_true_iff in Hc. destruct Hc as [Hp Hps].
  destruct (IH Hps) as [ps' Eps]. rewrite Eps.
  unfold propose_param, has_committed in *.
  destruct (p_grad p) as [pg|]; simpl in *; [|eauto].
  destruct (st_grad (p_state p)) as [g|]; simpl in *; [|discriminate].
  destruct (st_param (p_state p)) as [x|]; simpl in *; [|discriminate].
  destruct (st_velocity (p_state p)) as [v|]; simpl in *; [|discriminate].
  destruct (propose_velocity_ok g v Hlaw) as [v' Ev].
  rewrite Ev. simpl. eauto.
Qed.

(** The proposal writes the value and the key ['new_velocity'] only. *)
Lemma propose_param_frame (p p' : Param) :
  propose_param tau dt t p = Ok p' ->
  committed p' = committed p /\ p_grad p' = p_grad p.
Proof.
  unfold propose_param. destruct (p_grad p) as [pg|] eqn:Eg.
  - intros H. inv_bind H. inv_bind H. inv_bind H. inv_bind H.
    injection H as <-. unfold committed. simpl. auto.
  - intros H. injection H as <-. auto.
Qed.

Lemma propose_params_frame (ps ps' : list Param) :
  propose_params tau dt t ps = Ok ps' ->
  map committed ps' = map committed ps /\ map p_grad ps' = map p_grad ps.
Proof.
  revert ps'. induction ps as [|p ps IH]; simpl; intros ps' H.
  - injection H as <-. auto.
  - inv_bind H. inv_bind H. injection H as <-.
    destruct (propose_param_frame _ _ Ha) as [E1 E2].
    destruct (IH _ Ha0) as [E3 E4]. simpl.
    rewrite E1, E2, E3, E4. auto.
Qed.

End Proposal.

Lemma propose_frame (g g' : Group) (c : Control) :
  propose g c = Ok g' ->
  g_tau g' = g_tau g /\ g_dt g' = g_dt g /\ g_low_bound g' = g_low_bound g /\
  g_high_bound g' = g_high_bound g /\ g_control g' = g_control g /\
  map committed (g_params g') = map committed (g_params g) /\
  map p_grad (g_params g') = map p_grad (g_params g).
Proof.
  unfold propose. intros H. inv_bind H. injection H as <-. simpl.
  destruct (propose_params_frame _ _ _ _ _ Ha) as [E1 E2]. auto 10.
Qed.

(** ** Saving the state on acceptance *)

Lemma save_state_ok (ps : list Param) :
  forallb has_proposal ps = true -> exists ps', save_state ps = Ok ps'.
Proof.
  induction ps as [|p ps IH]; simpl; intros H; [eauto|].
  apply andb_true_iff in H. destruct H as [Hp Hps].
  destruct (IH Hps) as [ps' Eps]. rewrite Eps.
  unfold save_param, has_proposal in *.
  destruct (p_grad p) as [pg|]; simpl in *; [|eauto].
  destruct (st_new_velocity (p_state p)) as [nv|]; simpl in *; [eauto|discriminate].
Qed.

Lemma save_param_committed (p p' : Param) :
  save_param p = Ok p' -> has_committed p' = true.
Proof.
  unfold save_param, has_committed.
  destruct (p_grad p) as [pg|] eqn:Eg; intros H.
  - inv_bind H. injection H as <-. reflexivity.
  - injection H as <-. rewrite Eg. reflexivity.
Qed.

Lemma save_state_committed (ps ps' : list Param) :
  save_state ps = Ok ps' -> forallb has_committed ps' = true.
Proof.
  revert ps'. induction ps as [|p ps IH]; simpl; intros ps' H.
  - injection H as <-. reflexivity.
  - inv_bind H. inv_bind H. injection H as <-. simpl.
    rewrite (save_param_committed _ _ Ha), (IH _ Ha0). reflexivity.
Qed.

(** ** The two outcomes of the acceptance test *)

Lemma acceptance_accept (g g' : Group) (c : Control) (r : R) :
  relnorm g = Ok r -> r < g_high_bound g ->
  acceptance_test g c = Ok g' ->
  g_control g' = Some (mkControl (ctl_step c + 1) (ctl_t c + g_dt g) true) /\
  g_tau g' = g_tau g /\
  g_dt g' = (if Rlt_dec r (g_low_bound g) then g_dt g * 1.1 else g_dt g) /\
  save_state (g_params g) = Ok (g_params g').
Proof.
  intros Hr Hhigh H. unfold acceptance_test in H. rewrite Hr in H. simpl in H.
  destruct (Rlt_dec r (g_high_bound g)) as [_|N]; [|contradiction].
  inv_bind H. injection H as <-. simpl. auto.
Qed.

Lemma acceptance_reject (g : Group) (c : Control) (r : R) :
  relnorm g = Ok r -> ~ r < g_high_bound g ->
  acceptance_test g c =
    Ok (mkGroup (g_params g) (g_tau g) (g_dt g / 10)
                (g_low_bound g) (g_high_bound g)
                (Some (mkControl (ctl_step c) (ctl_t c) false))).
Proof.
  intros Hr Hhigh. unfold acceptance_test. rewrite Hr. simpl.
  destruct (Rlt_dec r (g_high_bound g)) as [L|_]; [contradiction|reflexivity].
Qed.

Lemma quotient_nonneg (a b : R) : 0 <= a -> 0 < b -> 0 <= a / b.
Proof.
  intros Ha Hb. unfold Rdiv.
  apply Rmult_le_pos; [exact Ha|]. left. apply Rinv_0_lt_compat. exact Hb.
Qed.

(** ** The loop body at an initialised group *)

Lemma step_group_initialised (o : Optimizer) (i : nat) (g : Group) (c : Control) :
  g_control g = Some c ->
  step_group o i g =
    (g1 <- acceptance_test g c ;;
     c1 <- Py.getitem (g_control g1) ;;
     g2 <- propose g1 c1 ;;
     Ok (update i g2 o)).
Proof. intros Hc. unfold step_group. rewrite Hc. reflexivity. Qed.

(** C3.  At an initialised group whose acceptance test accepts
    ([relnorm < high_bound]), the loop body leaves the group with [t]
    increased by the old [dt], the step count increased by one and
    [accepted = true]; [dt] is multiplied by 1.1 when [relnorm < low_bound] and
    is unchanged when [low_bound <= relnorm].  The body returns whenever every
    parameter with a gradient has a proposed velocity and, under the power
    law, [t >= 0] and [dt > 0]. *)
Theorem accept_step_size_control
    (o : Optimizer) (i : nat) (g : Group) (c : Control) (r : R) :
  nth_error o i = Some g ->
  g_control g = Some c ->
  relnorm g = Ok r ->
  r < g_high_bound g ->
  (forall o', step_group o i g = Ok o' ->
     exists g', nth_error o' i = Some g' /\
       g_control g' = Some (mkControl (ctl_step c + 1) (ctl_t c + g_dt g) true) /\
       (r < g_low_bound g -> g_dt g' = 1.1 * g_dt g) /\
       (g_low_bound g <= r -> g_dt g' = g_dt g)) /\
  (forallb has_proposal (g_params g) = true ->
   (g_tau g < 0 -> 0 <= ctl_t c /\ 0 < g_dt g) ->
   exists o', step_group o i g = Ok o').
Proof.
  intros Hnth Hc Hr Hhigh. rewrite (step_group_initialised o i g c Hc). split.
  - intros o' H. inv_bind H. inv_bind H. inv_bind H. injection H as <-.
    destruct (acceptance_accept _ _ _ _ Hr Hhigh Ha) as (Ec & _ & Edt & _).
    destruct (propose_frame _ _ _ Ha1) as (_ & Edt' & _ & _ & Ec' & _).
    exists a1. split; [eapply nth_error_update_eq; eassumption|].
    rewrite Ec', Edt', Ec, Edt. split; [reflexivity|].
    destruct (Rlt_dec r (g_low_bound g)) as [L|N]; split; intros; lra.
  - intros Hprop Hlaw.
    destruct (save_state_ok _ Hprop) as [ps' Eps].
    unfold acceptance_test. rewrite Hr. simpl.
    destruct (Rlt_dec r (g_high_bound g)) as [_|N]; [|contradiction].
    rewrite Eps. simpl. unfold propose. simpl.
    destruct (propose_params_ok (g_tau g)
                (if Rlt_dec r (g_low_bound g) then g_dt g * 1.1 else g_dt g)
                (ctl_t c + g_dt g) ps') as [ps'' Eps''].
    + intros Hneg. destruct (Hlaw Hneg) as [Ht Hdt].
      assert (0 < (if Rlt_dec r (g_low_bound g) then g_dt g * 1.1 else g_dt g))
        by (destruct (Rlt_dec r (g_low_bound g)); lra).
      split; [lra|]. apply quotient_nonneg; lra.
    + eapply save_state_committed; eassumption.
    + rewrite Eps''. simpl. eauto.
Qed.

(** C3, at the second call of the scenario. *)
Lemma accept_step_size_control_witness :
  (forall o', step_group [scenario_first 0] 0 (scenario_first 0) = Ok o' ->
     exists g', nth_error o' 0 = Some g' /\
       g_control g' = Some (mkControl (0 + 1) (0 + 1) true) /\
       (0 < 0.01 -> g_dt g' = 1.1 * 1) /\
       (0.01 <= 0 -> g_dt g' = 1)) /\
  (forallb has_proposal (g_params (scenario_first 0)) = true ->
   (1 < 0 -> 0 <= 0 /\ 0 < 1) ->
   exists o', step_group [scenario_first 0] 0 (scenario_first 0) = Ok o').
Proof.
  apply (accept_step_size_control [scenario_first 0] 0 (scenario_first 0)
           (mkControl 0 0 true) 0).
  - reflexivity.
  - reflexivity.
  - apply scenario_relnorm.
  - simpl. lra.
Defined.

Lemma scenario_reversed_relnorm (x0 : R) : relnorm (scenario_reversed x0) = Ok 4.
Proof.
  unfold relnorm, scenario_reversed.
  cbn [g_params gradient_sums p_grad p_state st_grad Py.getitem bind].
  rewrite !norm_pow2. unfold Tensor.sum, Tensor.mul, relnorm_of. simpl.
  replace ((0 + (2 * 2 + 0)) * (0 + (-2 * -2 + 0))) with (4 * 4) by lra.
  rewrite math_sqrt_ok by lra. simpl.
  rewrite sqrt_square by lra.
  rewrite truediv_ok by lra. f_equal. lra.
Qed.

(** C4.  At an initialised group whose acceptance test rejects
    ([relnorm >= high_bound]), the loop body divides [dt] by 10, sets
    [accepted = false], keeps [t] and the step count, and leaves the committed
    gradient, position and velocity of every parameter, and every other group,
    as they were.  The body returns whenever every parameter with a gradient
    has its committed state and, under the power law, [t >= 0] and [dt > 0]. *)
Theorem reject_frame_condition
    (o : Optimizer) (i : nat) (g : Group) (c : Control) (r : R) :
  nth_error o i = Some g ->
  g_control g = Some c ->
  relnorm g = Ok r ->
  g_high_bound g <= r ->
  (forall o', step_group o i g = Ok o' ->
     exists g', nth_error o' i = Some g' /\
       g_dt g' = g_dt g / 10 /\
       g_control g' = Some (mkControl (ctl_step c) (ctl_t c) false) /\
       map committed (g_params g') = map committed (g_params g) /\
       (forall j, j <> i -> nth_error o' j = nth_error o j)) /\
  (forallb has_committed (g_params g) = true ->
   (g_tau g < 0 -> 0 <= ctl_t c /\ 0 < g_dt g) ->
   exists o', step_group o i g = Ok o').
Proof.
  intros Hnth Hc Hr Hhigh. rewrite (step_group_initialised o i g c Hc).
  rewrite (acceptance_reject g c r Hr) by lra. simpl. split.
  - intros o' H. inv_bind H. injection H as <-.
    destruct (propose_frame _ _ _ Ha) as (_ & Edt & _ & _ & Ec & Ecom & _).
    simpl in *. exists a. split; [eapply nth_error_update_eq; eassumption|].
    repeat split; auto.
    intros j Hj. apply nth_error_update_neq. auto.
  - intros Hcom Hlaw. unfold propose. simpl.
    destruct (propose_params_ok (g_tau g) (g_dt g / 10) (ctl_t c) (g_params g))
      as [ps' Eps'].
    + intros Hneg. destruct (Hlaw Hneg) as [Ht Hdt].
      split; [lra|]. apply quotient_nonneg; lra.
    + exact Hcom.
    + rewrite Eps'. simpl. eauto.
Qed.

(** C4, when the second call of the scenario meets the opposite gradient. *)
Lemma reject_frame_condition_witness :
  (forall o', step_group [scenario_reversed 0] 0 (scenario_reversed 0) = Ok o' ->
     exists g', nth_error o' 0 = Some g' /\
       g_dt g' = 1 / 10 /\
       g_control g' = Some (mkControl 0 0 false) /\
       map committed (g_params g') = [(Some [2], Some [0], Some [0])] /\
       (forall j, j <> 0%nat ->
          nth_error o' j = nth_error [scenario_reversed 0] j)) /\
  (forallb has_committed (g_params (scenario_reversed 0)) = true ->
   (1 < 0 -> 0 <= 0 /\ 0 < 1) ->
   exists o', step_group [scenario_reversed 0] 0 (scenario_reversed 0) = Ok o').
Proof.
  apply (reject_frame_condition [scenario_reversed 0] 0 (scenario_reversed 0)
           (mkControl 0 0 true) 4).
  - reflexivity.
  - reflexivity.
  - apply scenario_reversed_relnorm.
  - simpl. lra.
Defined.

(** ** The loop body at an uninitialised group *)

Lemma reset_param_committed (p : Param) : has_committed (reset_param p) = true.
Proof.
  unfold reset_param, has_committed.
  destruct (p_grad p) as [gr|] eqn:Eg; [reflexivity|]. rewrite Eg. reflexivity.
Qed.

Lemma reset_params_committed (ps : list Param) :
  forallb has_committed (map reset_param ps) = true.
Proof.
  induction ps as [|p ps IH]; simpl; [reflexivity|].
  rewrite reset_param_committed, IH. reflexivity.
Qed.

Lemma nth_error_reset (o : Optimizer) (i : nat) :
  nth_error (reset o) i = option_map reset_group (nth_error o i).
Proof. unfold reset. apply nth_error_map. Qed.

(** The first-call semantics where the code has it: at a group that has no key
    ['step'] when the loop reaches it (the only group, or the first group, of
    an optimizer that was never advanced) the loop body runs no acceptance
    test: whatever the gradients, it is the proposal made from the freshly
    reset group, and it leaves the group with step count 0, [t = 0],
    [accepted = true] and its [dt] unchanged.  In exact arithmetic the body
    returns unless the power law meets [dt = 0]. *)
Theorem first_call_semantics (o : Optimizer) (i : nat) (g : Group) :
  nth_error o i = Some g ->
  g_control g = None ->
  (forall o', step_group o i g = Ok o' ->
     exists g', nth_error o' i = Some g' /\
       propose (reset_group g) initial_control = Ok g' /\
       g_control g' = Some (mkControl 0 0 true) /\
       g_dt g' = g_dt g) /\
  ((g_tau g < 0 -> g_dt g <> 0) ->
   exists o', step_group o i g = Ok o').
Proof.
  intros Hnth Hc. unfold step_group. rewrite Hc. split.
  - intros o' H. inv_bind H. injection H as <-.
    destruct (propose_frame _ _ _ Ha) as (_ & Edt & _ & _ & Ec & _).
    exists a. split.
    + eapply nth_error_update_eq. rewrite nth_error_reset, Hnth. reflexivity.
    + auto.
  - intros Hlaw. unfold propose. simpl.
    destruct (propose_params_ok (g_tau g) (g_dt g) 0 (map reset_param (g_params g)))
      as [ps' Eps'].
    + intros Hneg. specialize (Hlaw Hneg). split; [lra|].
      unfold Rdiv. rewrite Rmult_0_l. lra.
    + apply reset_params_committed.
    + rewrite Eps'. simpl. eauto.
Qed.

(** The first-call semantics at the first call of the scenario. *)
Lemma first_call_semantics_witness :
  (forall o', step_group [scenario_constructed 0] 0 (scenario_constructed 0) = Ok o' ->
     exists g', nth_error o' 0 = Some g' /\
       propose (reset_group (scenario_constructed 0)) initial_control = Ok g' /\
       g_control g' = Some (mkControl 0 0 true) /\
       g_dt g' = 1) /\
  ((1 < 0 -> 1 <> 0) ->
   exists o', step_group [scenario_constructed 0] 0 (scenario_constructed 0) = Ok o').
Proof.
  apply (first_call_semantics [scenario_constructed 0] 0 (scenario_constructed 0));
    reflexivity.
Defined.

(** ** The loop over the groups *)

Lemma step_group_length (o o' : Optimizer) (i : nat) (g : Group) :
  step_group o i g = Ok o' -> length o' = length o.
Proof.
  unfold step_group. destruct (g_control g) as [c|]; intros H.
  - inv_bind H. inv_bind H. inv_bind H. injection H as <-. apply length_update.
  - inv_bind H. injection H as <-. rewrite length_update.
    unfold reset. apply length_map.
Qed.

Lemma step_loop_length (n i : nat) (o o' : Optimizer) :
  step_loop n i o = Ok o' -> length o' = length o.
Proof.
  revert i o. induction n as [|n IH]; simpl; intros i o H.
  - injection H as <-. reflexivity.
  - destruct (nth_error o i) as [g|].
    + inv_bind H. rewrite (IH _ _ H). eapply step_group_length. eassumption.
    + injection H as <-. reflexivity.
Qed.

Lemma step_loop_out_of_range (n i : nat) (o : Optimizer) :
  (length o <= i)%nat -> step_loop n i o = Ok o.
Proof.
  intros Hi. destruct n as [|n]; simpl; [reflexivity|].
  apply nth_error_None in Hi. rewrite Hi. reflexivity.
Qed.

(** The first [a] iterations, then the others. *)
Lemma step_loop_split (a b s : nat) (o : Optimizer) :
  step_loop (a + b) s o = (o' <- step_loop a s o ;; step_loop b (s + a) o').
Proof.
  revert s o. induction a as [|a IH]; intros s o.
  - simpl. rewrite Nat.add_0_r. reflexivity.
  - simpl. destruct (nth_error o s) as [g|] eqn:Eg.
    + destruct (step_group o s g) as [o'|e]; simpl; [|reflexivity].
      rewrite IH. rewrite <- plus_n_Sm. reflexivity.
    + simpl. symmetry. apply step_loop_out_of_range.
      apply nth_error_None in Eg. apply Nat.le_trans with s; [exact Eg|].
      apply Nat.le_add_r.
Qed.

(** The loop raises what the body raises at the group it has reached. *)
Lemma step_groups_raises (o1 o2 : Optimizer) (i : nat) (g : Group) (e : exception) :
  step_loop i 0 o1 = Ok o2 ->
  nth_error o2 i = Some g ->
  step_group o2 i g = Raise e ->
  step_groups o1 = Raise e.
Proof.
  intros Hreach Hnth Hraise. unfold step_groups.
  assert (Hlen : (i < length o1)%nat).
  { rewrite <- (step_loop_length _ _ _ _ Hreach).
    apply nth_error_Some. rewrite Hnth. discriminate. }
  replace (length o1) with (i + S (length o1 - S i))%nat
    by lia.
  rewrite step_loop_split, Hreach. simpl.
  rewrite Hnth, Hraise. reflexivity.
Qed.

(** ** The degenerate gradient *)

Lemma relnorm_of_degenerate (a2 b2 ab : R) :
  a2 * b2 = 0 -> relnorm_of (a2, b2, ab) = Raise ZeroDivisionError.
Proof.
  intros Hz. unfold relnorm_of. rewrite math_sqrt_ok by lra. simpl.
  apply truediv_zero. rewrite Hz. apply sqrt_0.
Qed.

(** C2.  When the loop of a call reaches an initialised group for which the
    sums [a2] and [b2] of the acceptance test multiply to zero, the division
    by [sqrt(a2 * b2)] raises: the body of the loop, and with it the call,
    ends in [ZeroDivisionError], with no [dt] or velocity computed from the
    quotient. *)
Theorem degenerate_gradient_raises
    (closure : option Closure) (o o2 : Optimizer) (i : nat) (g : Group)
    (c : Control) (a2 b2 ab : R) :
  step_loop i 0 (snd (call_closure closure o)) = Ok o2 ->
  nth_error o2 i = Some g ->
  g_control g = Some c ->
  gradient_sums (g_params g) (0, 0, 0) = Ok (a2, b2, ab) ->
  a2 * b2 = 0 ->
  relnorm g = Raise ZeroDivisionError /\
  step_group o2 i g = Raise ZeroDivisionError /\
  step closure o = Raise ZeroDivisionError.
Proof.
  intros Hreach Hnth Hc Hsums Hz.
  assert (Hrel : relnorm g = Raise ZeroDivisionError).
  { unfold relnorm. rewrite Hsums. simpl. apply relnorm_of_degenerate, Hz. }
  assert (Hbody : step_group o2 i g = Raise ZeroDivisionError).
  { rewrite (step_group_initialised o2 i g c Hc).
    unfold acceptance_test. rewrite Hrel. reflexivity. }
  repeat split; auto.
  unfold step. destruct (call_closure closure o) as [loss o1]. simpl in *.
  rewrite (step_groups_raises o1 o2 i g _ Hreach Hnth Hbody). reflexivity.
Qed.

(** C2, at a group whose committed and current gradients are both zero. *)
Lemma degenerate_gradient_raises_witness :
  relnorm (flat_group 0) = Raise ZeroDivisionError /\
  step_group [flat_group 0] 0 (flat_group 0) = Raise ZeroDivisionError /\
  step None [flat_group 0] = Raise ZeroDivisionError.
Proof.
  apply (degenerate_gradient_raises None [flat_group 0] [flat_group 0] 0
           (flat_group 0) (mkControl 0 0 true)
           (0 + Tensor.norm [0] ^ 2) (0 + Tensor.norm [0] ^ 2)
           (0 + Tensor.sum (Tensor.mul [0] [0]))).
  - reflexivity.
  - reflexivity.
  - reflexivity.
  - reflexivity.
  - rewrite norm_pow2. unfold Tensor.sum, Tensor.mul. simpl. lra.
Defined.

(** ** Construction *)

(** C5 (as amended).  The constructor does not look at [dt], [low_bound] or
    [high_bound]: for every configuration it succeeds as soon as [params] is
    not empty, and the groups it builds are uninitialised; when [params] is a
    list of tensors, the one group holds [tau], [dt] and the bounds exactly as
    they were given. *)
Theorem construction_does_not_validate
    (params : ParamsArg) (tau dt low_bound high_bound : R) :
  nonempty_params params = true ->
  exists o,
    __init__ params tau dt low_bound high_bound = Ok o /\
    o <> [] /\
    Forall (fun g => g_control g = None) o /\
    (forall ps, params = Tensors ps ->
       Forall (fun g => g_tau g = tau /\ g_dt g = dt /\
                        g_low_bound g = low_bound /\
                        g_high_bound g = high_bound) o).
Proof.
  intros Hne. unfold __init__, Optimizer_init.
  destruct params as [[|p ps]|[|gd gs]]; try discriminate Hne.
  - eexists. split; [reflexivity|]. split; [discriminate|]. split.
    + constructor; [reflexivity|constructor].
    + intros ps' _. constructor; [simpl; auto|constructor].
  - eexists. split; [reflexivity|]. split; [discriminate|]. split.
    + apply Forall_forall. intros g Hg. apply in_map_iff in Hg.
      destruct Hg as (gd' & <- & _). reflexivity.
    + intros ps' E. discriminate E.
Qed.

(** C5 (as amended), with [dt = -1] and the bounds in the wrong order. *)
Lemma construction_does_not_validate_witness :
  exists o,
    __init__ (scenario_params 0) 1 (-1) 0.1 0.01 = Ok o /\
    o <> [] /\
    Forall (fun g => g_control g = None) o /\
    (forall ps, scenario_params 0 = Tensors ps ->
       Forall (fun g => g_tau g = 1 /\ g_dt g = -1 /\
                        g_low_bound g = 0.1 /\
                        g_high_bound g = 0.01) o).
Proof.
  apply (construction_does_not_validate (scenario_params 0) 1 (-1) 0.1 0.01).
  reflexivity.
Defined.

(** C5 (as stated) fails: [dt = -1], [low_bound = 0.1 >= high_bound = 0.01]
    is an invalid configuration, and the constructor accepts it. *)
Lemma invalid_configuration_is_constructed :
  ~ (forall params tau dt low_bound high_bound,
       dt <= 0 \/ high_bound <= low_bound \/ low_bound <= 0 \/ high_bound <= 0 ->
       exists e, __init__ params tau dt low_bound high_bound = Raise e).
Proof.
  intros H.
  destruct (H (scenario_params 0) 1 (-1) 0.1 0.01) as [e He].
  - left. lra.
  - discriminate He.
Qed.

(** ** The value returned by step *)

Lemma step_inv (closure : option Closure) (o o' : Optimizer) (r : option Loss) :
  step closure o = Ok (r, o') ->
  r = fst (call_closure closure o) /\
  step_groups (snd (call_closure closure o)) = Ok o'.
Proof.
  unfold step. destruct (call_closure closure o) as [loss o1]. simpl.
  intros H. inv_bind H. injection H as <- <-. auto.
Qed.

Lemma step_of_groups (closure : option Closure) (o o' : Optimizer) :
  step_groups (snd (call_closure closure o)) = Ok o' ->
  step closure o = Ok (fst (call_closure closure o), o').
Proof.
  unfold step. destruct (call_closure closure o) as [loss o1]. simpl.
  intros ->. reflexivity.
Qed.

Lemma scenario_step1_with_closure (l : Loss) (x0 : R) :
  step (Some (constant_closure l)) [scenario_constructed x0]
  = Ok (Some l, [scenario_first x0]).
Proof.
  apply (step_of_groups (Some (constant_closure l)) [scenario_constructed x0]).
  apply (step_inv None [scenario_constructed x0] _ None).
  apply scenario_step1.
Qed.

(** C6 (as amended).  A call that returns gives back the loss its closure
    computed when a closure was supplied, and [None] when none was. *)
Theorem step_returns_the_loss
    (closure : option Closure) (o o' : Optimizer) (r : option Loss) :
  step closure o = Ok (r, o') ->
  r = option_map (fun c : Closure => fst (c o)) closure.
Proof.
  intros H. apply step_inv in H. destruct H as [-> _].
  destruct closure as [c|]; simpl; [|reflexivity].
  destruct (c o) as [l f]. reflexivity.
Qed.

(** C6 (as amended), at the first call of the scenario with a closure whose
    loss is 3. *)
Lemma step_returns_the_loss_witness :
  Some 3 = option_map (fun c : Closure => fst (c [scenario_constructed 0]))
             (Some (constant_closure 3)).
Proof.
  apply (step_returns_the_loss (Some (constant_closure 3))
           [scenario_constructed 0] [scenario_first 0] (Some 3)).
  apply scenario_step1_with_closure.
Defined.

(** C6 (as stated) fails: the first call of the scenario, with a closure whose
    loss is 3, returns that loss. *)
Lemma step_with_closure_returns_its_loss :
  ~ (forall (c : Closure) (o o' : Optimizer) (r : option Loss),
       step (Some c) o = Ok (r, o') -> r <> Some (fst (c o))).
Proof.
  intros H.
  apply (H (constant_closure 3) [scenario_constructed 0] [scenario_first 0] (Some 3)).
  - apply scenario_step1_with_closure.
  - reflexivity.
Qed.

(** ** The power law at [t = 0] *)

Lemma zero_over (dt : R) : 0 / (0 + dt) = 0.
Proof. unfold Rdiv. apply Rmult_0_l. Qed.

(** C10.  For [tau < 0], [dt > 0] and [t = 0] the quotient [t / (t + dt)] is
    defined and the weight [x = (t / (t + dt)) ** (-tau)] is 0, so that the
    proposed velocity is [-g] for the committed gradient [g], whatever the
    committed velocity of the same shape; no exception is raised.  At the
    first call this gives each parameter that has a gradient the proposed
    velocity [-p.grad]. *)
Theorem power_law_at_time_zero (tau dt : R) (g v : Tensor) :
  tau < 0 ->
  0 < dt ->
  length v = length g ->
  (exists q, Py.truediv 0 (0 + dt) = Ok q /\ Py.pow q (- tau) = Ok 0) /\
  propose_velocity tau dt 0 g v = Ok (Tensor.neg g) /\
  (forall p, p_grad p = Some g -> length (p_data p) = length g ->
     exists p', propose_param tau dt 0 (reset_param p) = Ok p' /\
                st_new_velocity (p_state p') = Some (Tensor.neg g)).
Proof.
  intros Htau Hdt Hlen.
  assert (Hdiv : Py.truediv 0 (0 + dt) = Ok (0 / (0 + dt)))
    by (apply truediv_ok; lra).
  assert (Hpow : Py.pow (0 / (0 + dt)) (- tau) = Ok 0)
    by (apply pow_zero_base; [apply zero_over | lra]).
  assert (Hv : forall w, length w = length g ->
                 propose_velocity tau dt 0 g w = Ok (Tensor.neg g)).
  { intros w Hw. unfold propose_velocity.
    destruct (Rlt_dec 0 tau) as [L|_]; [lra|].
    destruct (Rlt_dec tau 0) as [_|N]; [|contradiction].
    rewrite Hdiv. simpl. rewrite Hpow. simpl.
    rewrite mul__zeros, add__zeros_neg by exact Hw. reflexivity. }
  split; [eauto|]. split; [apply Hv, Hlen|].
  intros p Hg Hshape. unfold propose_param, reset_param. rewrite Hg. simpl.
  rewrite Hv.
  - simpl. eauto.
  - unfold Tensor.zeros_like. rewrite length_map. exact Hshape.
Qed.

(** C10, for [tau = -1], [dt = 1] and the gradient [2.0]. *)
Lemma power_law_at_time_zero_witness :
  (exists q, Py.truediv 0 (0 + 1) = Ok q /\ Py.pow q (- -1) = Ok 0) /\
  propose_velocity (-1) 1 0 [2] [0] = Ok (Tensor.neg [2]) /\
  (forall p, p_grad p = Some [2] -> length (p_data p) = length [2] ->
     exists p', propose_param (-1) 1 0 (reset_param p) = Ok p' /\
                st_new_velocity (p_state p') = Some (Tensor.neg [2])).
Proof.
  apply (power_law_at_time_zero (-1) 1 [2] [0]).
  - lra.
  - lra.
  - reflexivity.
Defined.

(** ** Positivity of the step size *)

Lemma acceptance_dt_positive (g g' : Group) (c : Control) :
  acceptance_test g c = Ok g' -> dt_positive g -> dt_positive g'.
Proof.
  unfold acceptance_test, dt_positive. intros H Hpos. inv_bind H.
  destruct (Rlt_dec a (g_high_bound g)).
  - inv_bind H. injection H as <-. simpl.
    destruct (Rlt_dec a (g_low_bound g)); lra.
  - injection H as <-. simpl. lra.
Qed.

Lemma propose_dt_positive (g g' : Group) (c : Control) :
  propose g c = Ok g' -> dt_positive g -> dt_positive g'.
Proof.
  unfold dt_positive. intros H Hpos.
  destruct (propose_frame _ _ _ H) as (_ & -> & _). exact Hpos.
Qed.

Lemma reset_dt_positive (o : Optimizer) :
  Forall dt_positive o -> Forall dt_positive (reset o).
Proof.
  unfold reset. intros H. apply Forall_map.
  eapply Forall_impl; [|exact H]. intros g Hg. exact Hg.
Qed.

Lemma provide_dt_positive (f : Provider) (o : Optimizer) :
  Forall dt_positive o -> Forall dt_positive (provide f o).
Proof.
  unfold provide. generalize 0%nat.
  induction o as [|g o IH]; intros k H; simpl; [constructor|].
  inversion H as [|? ? Hg Ho]; subst.
  constructor; [exact Hg | apply IH, Ho].
Qed.

Lemma step_group_dt_positive (o o' : Optimizer) (i : nat) (g : Group) :
  Forall dt_positive o -> dt_positive g ->
  step_group o i g = Ok o' -> Forall dt_positive o'.
Proof.
  intros Ho Hg. unfold step_group. destruct (g_control g) as [c|]; intros H.
  - inv_bind H. inv_bind H. inv_bind H. injection H as <-.
    apply Forall_update; [|exact Ho].
    eapply propose_dt_positive; [eassumption|].
    eapply acceptance_dt_positive; eassumption.
  - inv_bind H. injection H as <-.
    apply Forall_update; [|apply reset_dt_positive, Ho].
    eapply propose_dt_positive; [eassumption|]. exact Hg.
Qed.

Lemma step_loop_dt_positive (n i : nat) (o o' : Optimizer) :
  Forall dt_positive o -> step_loop n i o = Ok o' -> Forall dt_positive o'.
Proof.
  revert i o. induction n as [|n IH]; simpl; intros i o Ho H.
  - injection H as <-. exact Ho.
  - destruct (nth_error o i) as [g|] eqn:Eg.
    + inv_bind H. apply (IH _ _ (step_group_dt_positive _ _ _ _ Ho
        (proj1 (Forall_forall _ _) Ho g (nth_error_In _ _ Eg)) Ha) H).
    + injection H as <-. exact Ho.
Qed.

Lemma step_dt_positive (closure : option Closure) (o o' : Optimizer) (r : option Loss) :
  Forall dt_positive o -> step closure o = Ok (r, o') -> Forall dt_positive o'.
Proof.
  intros Ho H. apply step_inv in H. destruct H as [_ H].
  apply (step_loop_dt_positive _ _ _ _) in H; [exact H|].
  destruct closure as [c|]; simpl; [|exact Ho].
  destruct (c o) as [l f]. simpl. apply provide_dt_positive, Ho.
Qed.

(** C8 (as amended).  In exact arithmetic, if every group of the optimizer
    has [dt > 0], so it has after any sequence of [reset] calls, [step] calls
    and gradient updates by the provider in which no call raises: [dt] is only
    ever multiplied by 1.1 or divided by 10. *)
Theorem dt_stays_positive (cs : list call) (o o' : Optimizer) :
  Forall (fun g => 0 < g_dt g) o ->
  run cs o = Ok o' ->
  Forall (fun g => 0 < g_dt g) o'.
Proof.
  fold dt_positive. revert o. induction cs as [|[|closure|f] cs IH]; simpl; intros o Ho H.
  - injection H as <-. exact Ho.
  - apply (IH _ (reset_dt_positive _ Ho) H).
  - inv_bind H. destruct a as [r o1].
    apply (IH _ (step_dt_positive _ _ _ _ Ho Ha) H).
  - apply (IH _ (provide_dt_positive _ _ Ho) H).
Qed.

(** C8 (as amended), along the two calls of the scenario, followed by a
    reset. *)
Lemma dt_stays_positive_witness :
  Forall (fun g => 0 < g_dt g) (reset [scenario_second 0]).
Proof.
  apply (dt_stays_positive [CallStep None; CallStep None; CallReset]
           [scenario_constructed 0] (reset [scenario_second 0])).
  - constructor; [simpl; lra|constructor].
  - simpl. rewrite scenario_step1. simpl. rewrite scenario_step2. reflexivity.
Defined.

Lemma constructed_dt_positive
    (ps : list (Tensor * option Tensor)) (tau dt low_bound high_bound : R)
    (o : Optimizer) :
  __init__ (Tensors ps) tau dt low_bound high_bound = Ok o ->
  0 < dt -> Forall dt_positive o.
Proof.
  unfold __init__, Optimizer_init. destruct ps as [|p ps]; intros H Hdt.
  - discriminate H.
  - injection H as <-. constructor; [exact Hdt|constructor].
Qed.

(** ** reset and lazy initialisation *)

Lemma step_group_uninitialised (o : Optimizer) (i : nat) (g : Group) :
  g_control g = None ->
  step_group o i g =
    (g2 <- propose (reset_group g) initial_control ;;
     Ok (update i g2 (reset o))).
Proof. intros Hc. unfold step_group. rewrite Hc. reflexivity. Qed.

Lemma propose_reset_ok (g : Group) :
  (g_tau g < 0 -> g_dt g <> 0) ->
  exists g', propose (reset_group g) initial_control = Ok g'.
Proof.
  intros Hlaw. unfold propose. simpl.
  destruct (propose_params_ok (g_tau g) (g_dt g) 0 (map reset_param (g_params g)))
    as [ps' Eps'].
  - intros Hneg. specialize (Hlaw Hneg). split; [lra|].
    rewrite zero_over. lra.
  - apply reset_params_committed.
  - rewrite Eps'. simpl. eauto.
Qed.




(** A whole call on two groups, the first at its second accepted step, the
    second not yet initialised (added after the first calls): the first group
    passes its acceptance test and is then reset by the second one, back to
    step count 0 and [t = 0], with a zero committed velocity and its proposed
    value as committed position. *)
Lemma late_group_resets_the_others (x0 y0 : R) :
  exists g0,
    step None [scenario_second x0; scenario_constructed y0]
      = Ok (None, [g0; scenario_first y0]) /\
    g_control g0 = Some (mkControl 0 0 true) /\
    g_dt g0 = 1.21 /\
    map st_velocity (map p_state (g_params g0)) = [Some [0]] /\
    map st_param (map p_state (g_params g0)) = map Some (map p_data (g_params g0)).
Proof.
  eexists. split.
  - run_model. rdec. run_model.
    rewrite !pow2_sqrt by lra. rdec.
    replace ((0 + (2 * 2 + 0)) * (0 + (2 * 2 + 0))) with (4 * 4) by lra.
    rewrite sqrt_square by lra. rdec. run_model. rdec. run_model. rdec.
    replace (- (1) / 1) with (-1) by lra.
    do 3 f_equal. same_reals.
  - simpl. repeat split. lra.
Qed.

(** A first call on two fresh groups: the first group resets both, so the
    second one goes through the acceptance test, is accepted against its own
    gradient and looks for a proposed velocity that no call has made yet. *)
Lemma fresh_two_groups_first_call (x0 y0 : R) :
  step None [scenario_constructed x0; scenario_constructed y0] = Raise KeyError.
Proof.
  run_model. rdec. run_model.
  rewrite !pow2_sqrt by lra. rdec.
  replace ((0 + (2 * 2 + 0)) * (0 + (2 * 2 + 0))) with (4 * 4) by lra.
  rewrite sqrt_square by lra. rdec. run_model. rdec.
  reflexivity.
Qed.

(** ** A call on initialised groups

    When every group is initialised no [reset] happens during the call, and
    the groups do not see each other: the call is the body of the loop on each
    group by itself. *)

Lemma update_app {A : Type} (l1 l2 : list A) (x y : A) :
  update (length l1) x (l1 ++ y :: l2) = l1 ++ x :: l2.
Proof.
  induction l1 as [|z l1 IH]; simpl; [reflexivity|]. rewrite IH. reflexivity.
Qed.

Lemma nth_error_middle {A : Type} (l1 l2 : list A) (y : A) :
  nth_error (l1 ++ y :: l2) (length l1) = Some y.
Proof.
  induction l1 as [|z l1 IH]; simpl; [reflexivity|exact IH].
Qed.

Lemma step_group_advance (o : Optimizer) (i : nat) (g : Group) :
  g_control g <> None ->
  step_group o i g = (g2 <- advance_group g ;; Ok (update i g2 o)).
Proof.
  intros Hc. unfold step_group, advance_group.
  destruct (g_control g) as [c|]; [|contradiction]. simpl.
  destruct (acceptance_test g c) as [g1|e]; simpl; [|reflexivity].
  destruct (Py.getitem (g_control g1)) as [c1|e]; simpl; reflexivity.
Qed.

Lemma step_loop_initialised (l2 l1 : list Group) (o' : Optimizer) :
  Forall (fun g => g_control g <> None) l2 ->
  step_loop (length l2) (length l1) (l1 ++ l2) = Ok o' ->
  exists l2', o' = l1 ++ l2' /\
              Forall2 (fun g g' => advance_group g = Ok g') l2 l2'.
Proof.
  revert l1 o'. induction l2 as [|g l2 IH]; intros l1 o' Hinit H.
  - simpl in H. injection H as <-. exists []. split; [reflexivity|constructor].
  - inversion Hinit as [|? ? Hg Hl2]; subst. simpl in H.
    rewrite nth_error_middle in H.
    rewrite (step_group_advance _ _ _ Hg) in H.
    inv_bind H. apply bind_Ok in Ha. destruct Ha as (g2 & Hg2 & Hupd).
    injection Hupd as <-. rewrite update_app in H.
    replace (l1 ++ g2 :: l2) with ((l1 ++ [g2]) ++ l2) in H
      by (rewrite <- app_assoc; reflexivity).
    replace (S (length l1)) with (length (l1 ++ [g2])) in H
      by (rewrite length_app; simpl; lia).
    destruct (IH _ _ Hl2 H) as (l2' & -> & Hall).
    exists (g2 :: l2'). split.
    + rewrite <- app_assoc. reflexivity.
    + constructor; assumption.
Qed.

Lemma step_groups_initialised (o o' : Optimizer) :
  Forall (fun g => g_control g <> None) o ->
  step_groups o = Ok o' ->
  Forall2 (fun g g' => advance_group g = Ok g') o o'.
Proof.
  intros Hinit H. unfold step_groups in H.
  destruct (step_loop_initialised o [] o' Hinit H) as (l2' & -> & Hall).
  exact Hall.
Qed.

(** On a single group, the call is the body of the loop. *)
Lemma step_groups_single (g : Group) :
  step_groups [g] = step_group [g] 0 g.
Proof.
  unfold step_groups. simpl.
  destruct (step_group [g] 0 g) as [o'|e]; reflexivity.
Qed.

(** C7.  The code breaks the first-call semantics at the first call on two
    groups that were never initialised: the first group does what the claim
    says, but its [reset] initialises the second group too, so that the first
    call on the second group does run the acceptance test ([relnorm = 0],
    accepted) and ends in [KeyError] on ['new_velocity'] instead of leaving the
    group with [accepted = true] and step count 0. *)
Lemma second_fresh_group_is_tested :
  g_control (scenario_constructed 7) = None /\
  relnorm (reset_group (scenario_constructed 7)) = Ok 0 /\
  step None [scenario_constructed 0; scenario_constructed 7] = Raise KeyError /\
  ~ (exists o' g',
       step None [scenario_constructed 0; scenario_constructed 7] = Ok (None, o') /\
       nth_error o' 1 = Some g' /\
       g_control g' = Some (mkControl 0 0 true) /\
       g_dt g' = 1).
Proof.
  split; [reflexivity|]. split; [|split].
  - unfold relnorm, reset_group, scenario_constructed.
    cbn [g_params map reset_param gradient_sums p_grad p_data p_state st_grad
         Py.getitem bind].
    rewrite !norm_pow2. unfold Tensor.sum, Tensor.mul, relnorm_of. simpl.
    replace ((0 + (2 * 2 + 0)) * (0 + (2 * 2 + 0))) with (4 * 4) by lra.
    rewrite math_sqrt_ok by lra. simpl.
    rewrite sqrt_square by lra.
    rewrite truediv_ok by lra. f_equal. lra.
  - apply fresh_two_groups_first_call.
  - intros (o' & g' & H & _). rewrite fresh_two_groups_first_call in H.
    discriminate H.
Qed.

(** * Further properties of reset and step *)

(** ** reset *)

Lemma reset_param_idempotent (p : Param) :
  reset_param (reset_param p) = reset_param p.
Proof.
  unfold reset_param. destruct (p_grad p) as [gr|] eqn:Eg; simpl;
    try rewrite Eg; reflexivity.
Qed.

Lemma reset_group_idempotent (g : Group) :
  reset_group (reset_group g) = reset_group g.
Proof.
  unfold reset_group. simpl. f_equal. rewrite map_map.
  apply map_ext. intros p. apply reset_param_idempotent.
Qed.

(** X1.  [reset] is idempotent: a second [reset] with the same values and
    gradients changes nothing. *)
Theorem reset_idempotent (o : Optimizer) : reset (reset o) = reset o.
Proof.
  unfold reset. rewrite map_map. apply map_ext. intros g.
  apply reset_group_idempotent.
Qed.

Lemma reset_param_live (p : Param) : live (reset_param p) = live p.
Proof.
  unfold reset_param, live. destruct (p_grad p) as [gr|] eqn:Eg; simpl;
    try rewrite Eg; reflexivity.
Qed.

Lemma reset_param_proposal (p : Param) :
  st_new_velocity (p_state (reset_param p)) = st_new_velocity (p_state p).
Proof.
  unfold reset_param. destruct (p_grad p) as [gr|]; reflexivity.
Qed.

(** X2.  [reset] writes the control keys and the committed state only: every
    group keeps its [tau], its bounds and its current, adapted [dt]; every
    parameter keeps its value, its gradient and the velocity proposed last;
    and a parameter without a gradient keeps its whole state, stale or not. *)
Theorem reset_frame (o : Optimizer) :
  map settings (reset o) = map settings o /\
  map g_dt (reset o) = map g_dt o /\
  Forall2 (fun g g' =>
             Forall2 (fun p p' =>
                        live p' = live p /\
                        st_new_velocity (p_state p') = st_new_velocity (p_state p) /\
                        (p_grad p = None -> p' = p))
                     (g_params g) (g_params g'))
          o (reset o).
Proof.
  unfold reset. split; [|split].
  - rewrite map_map. reflexivity.
  - rewrite map_map. reflexivity.
  - induction o as [|g o IH]; simpl; constructor; [|exact IH].
    simpl. induction (g_params g) as [|p ps IHp]; simpl; constructor; [|exact IHp].
    split; [apply reset_param_live|]. split; [apply reset_param_proposal|].
    intros Hg. unfold reset_param. rewrite Hg. reflexivity.
Qed.

(** ** The error estimate *)

Lemma energy_nonneg (ps : list Param) : 0 <= energy ps.
Proof.
  induction ps as [|p ps IH]; simpl; [lra|].
  destruct (p_grad p) as [pg|]; [|exact IH].
  pose proof (sum_squares_nonneg pg). lra.
Qed.

Lemma gradient_sums_unchanged (ps : list Param) (a2 b2 ab : R) :
  Forall gradient_unchanged ps ->
  gradient_sums ps (a2, b2, ab)
  = Ok (a2 + energy ps, b2 + energy ps, ab + energy ps).
Proof.
  intros H. revert a2 b2 ab.
  induction H as [|p ps Hp Hps IH]; intros a2 b2 ab;
    cbn [gradient_sums energy].
  - same_reals.
  - unfold gradient_unchanged in Hp. destruct (p_grad p) as [pg|]; [|apply IH].
    rewrite Hp. cbn [Py.getitem bind]. rewrite IH, !norm_pow2.
    same_reals.
Qed.

Lemma relnorm_unchanged (g : Group) :
  Forall gradient_unchanged (g_params g) ->
  (energy (g_params g) <> 0 -> relnorm g = Ok 0) /\
  (energy (g_params g) = 0 -> relnorm g = Raise ZeroDivisionError).
Proof.
  intros H. unfold relnorm. rewrite (gradient_sums_unchanged _ 0 0 0 H). simpl.
  pose proof (energy_nonneg (g_params g)) as He. split; intros Hz.
  - rewrite math_sqrt_ok by (apply Rmult_le_pos; lra). simpl.
    rewrite sqrt_square by lra.
    rewrite truediv_ok by lra. f_equal. unfold Rdiv.
    replace (0 + energy (g_params g) + (0 + energy (g_params g))
             - 2 * (0 + energy (g_params g))) with 0 by lra.
    apply Rmult_0_l.
  - apply relnorm_of_degenerate. rewrite Hz. lra.
Qed.

(** X3.  When the current gradient of every parameter is the committed one,
    the error estimate is exactly 0, whatever the gradients are, unless they
    all vanish, in which case the estimate raises [ZeroDivisionError]. *)
Theorem relnorm_of_unchanged_gradients (g : Group) :
  Forall gradient_unchanged (g_params g) ->
  (energy (g_params g) <> 0 -> relnorm g = Ok 0) /\
  (energy (g_params g) = 0 -> relnorm g = Raise ZeroDivisionError).
Proof. exact (relnorm_unchanged g). Qed.

(** X3, at the second call of the scenario. *)
Lemma relnorm_of_unchanged_gradients_witness :
  (energy (g_params (scenario_first 0)) <> 0 -> relnorm (scenario_first 0) = Ok 0) /\
  (energy (g_params (scenario_first 0)) = 0 ->
   relnorm (scenario_first 0) = Raise ZeroDivisionError).
Proof.
  apply (relnorm_of_unchanged_gradients (scenario_first 0)).
  constructor; [reflexivity|constructor].
Defined.

Lemma gradient_gap_nonneg (x y : Tensor) :
  0 <= Tensor.sum (Tensor.mul x x) + Tensor.sum (Tensor.mul y y)
       - 2 * Tensor.sum (Tensor.mul x y).
Proof.
  revert y. induction x as [|a x IH]; intros [|b y].
  - simpl. lra.
  - pose proof (sum_squares_nonneg (b :: y)) as H.
    unfold Tensor.sum, Tensor.mul in *. simpl in *. nra.
  - pose proof (sum_squares_nonneg (a :: x)) as H.
    unfold Tensor.sum, Tensor.mul in *. simpl in *. nra.
  - specialize (IH y). unfold Tensor.sum, Tensor.mul in *. simpl in *.
    pose proof (Rle_0_sqr (a - b)) as Hsq. unfold Rsqr in Hsq. nra.
Qed.

Lemma gradient_sums_gap (ps : list Param) (a2 b2 ab a2' b2' ab' : R) :
  0 <= a2 + b2 - 2 * ab ->
  gradient_sums ps (a2, b2, ab) = Ok (a2', b2', ab') ->
  0 <= a2' + b2' - 2 * ab'.
Proof.
  revert a2 b2 ab.
  induction ps as [|p ps IH]; cbn [gradient_sums]; intros a2 b2 ab Hgap H.
  - injection H as <- <- <-. exact Hgap.
  - destruct (p_grad p) as [pg|]; [|eauto].
    destruct (st_grad (p_state p)) as [gr|]; cbn [Py.getitem bind] in H;
      [|discriminate H].
    apply IH in H; [exact H|]. rewrite !norm_pow2.
    pose proof (gradient_gap_nonneg gr pg). lra.
Qed.

Lemma relnorm_lower_bound (g : Group) (r : R) : relnorm g = Ok r -> 0 <= r.
Proof.
  unfold relnorm. intros H. inv_bind H. destruct a as [[a2 b2] ab].
  destruct (gradient_sums_nonneg _ _ _ _ _ _ _ (Rle_refl 0) (Rle_refl 0) Ha)
    as [Ha2 Hb2].
  assert (Hgap : 0 <= a2 + b2 - 2 * ab).
  { apply (gradient_sums_gap (g_params g) 0 0 0); [lra | exact Ha]. }
  unfold relnorm_of in H.
  rewrite math_sqrt_ok in H by (apply Rmult_le_pos; assumption). simpl in H.
  unfold Py.truediv in H.
  destruct (Req_dec_T (sqrt (a2 * b2)) 0) as [E|N]; [discriminate H|].
  injection H as <-. apply quotient_nonneg; [exact Hgap|].
  pose proof (sqrt_pos (a2 * b2)). lra.
Qed.

(** X4.  The error estimate is never negative: its numerator is the squared
    distance of the committed and the current gradients. *)
Theorem relnorm_nonneg (g : Group) (r : R) : relnorm g = Ok r -> 0 <= r.
Proof. exact (relnorm_lower_bound g r). Qed.

(** X4, for the opposite gradients, whose estimate is 4. *)
Lemma relnorm_nonneg_witness : 0 <= 4.
Proof.
  apply (relnorm_nonneg (scenario_reversed 0) 4).
  apply scenario_reversed_relnorm.
Defined.

(** ** reset before the first step *)







(** ** What the body of the loop does to the parameters *)

Lemma getitem_Ok {A : Type} (v : option A) (a : A) :
  Py.getitem v = Ok a -> v = Some a.
Proof. destruct v; simpl; intros H; [injection H as <-; reflexivity|discriminate H]. Qed.

Lemma Forall2_compose {A : Type} (P Q S : A -> A -> Prop) (l1 l2 l3 : list A) :
  (forall a b c, P a b -> Q b c -> S a c) ->
  Forall2 P l1 l2 -> Forall2 Q l2 l3 -> Forall2 S l1 l3.
Proof.
  intros HPQ H12. revert l3.
  induction H12 as [|a b l1 l2 Hab H12 IH]; intros l3 H23;
    inversion H23; subst; constructor; eauto.
Qed.

Lemma save_state_pointwise (ps ps' : list Param) :
  save_state ps = Ok ps' -> Forall2 (fun p p' => save_param p = Ok p') ps ps'.
Proof.
  revert ps'. induction ps as [|p ps IH]; simpl; intros ps' H.
  - injection H as <-. constructor.
  - inv_bind H. inv_bind H. injection H as <-. constructor; auto.
Qed.

Lemma propose_params_pointwise (tau dt t : R) (ps ps' : list Param) :
  propose_params tau dt t ps = Ok ps' ->
  Forall2 (fun p p' => propose_param tau dt t p = Ok p') ps ps'.
Proof.
  revert ps'. induction ps as [|p ps IH]; simpl; intros ps' H.
  - injection H as <-. constructor.
  - inv_bind H. inv_bind H. injection H as <-. constructor; auto.
Qed.

Lemma propose_param_at (tau dt t : R) (p p' : Param) :
  propose_param tau dt t p = Ok p' -> at_proposal dt p'.
Proof.
  unfold propose_param, at_proposal. destruct (p_grad p) as [pg|] eqn:Eg; intros H.
  - inv_bind H. inv_bind H. inv_bind H. inv_bind H. injection H as <-. simpl.
    apply getitem_Ok in Ha, Ha0, Ha2. rewrite Ha, Ha0, Ha2. eauto 6.
  - injection H as <-. rewrite Eg. exact I.
Qed.

Lemma propose_param_passed_over (tau dt t : R) (p p' : Param) :
  propose_param tau dt t p = Ok p' -> passed_over p p'.
Proof.
  unfold propose_param, passed_over. destruct (p_grad p) as [pg|] eqn:Eg; intros H.
  - inv_bind H. inv_bind H. inv_bind H. inv_bind H. injection H as <-. simpl.
    split; [reflexivity|discriminate].
  - injection H as <-. auto.
Qed.

Lemma save_param_passed_over (p p' : Param) :
  save_param p = Ok p' -> passed_over p p'.
Proof.
  unfold save_param, passed_over. destruct (p_grad p) as [pg|] eqn:Eg; intros H.
  - inv_bind H. injection H as <-. simpl. split; [reflexivity|discriminate].
  - injection H as <-. auto.
Qed.

Lemma reset_param_passed_over (p : Param) : passed_over p (reset_param p).
Proof.
  unfold reset_param, passed_over. destruct (p_grad p) as [gr|] eqn:Eg; simpl.
  - split; [reflexivity|discriminate].
  - auto.
Qed.

Lemma passed_over_trans (p1 p2 p3 : Param) :
  passed_over p1 p2 -> passed_over p2 p3 -> passed_over p1 p3.
Proof.
  unfold passed_over. intros [E12 N12] [E23 N23]. split.
  - congruence.
  - intros Hnone. rewrite <- (N12 Hnone). apply N23. congruence.
Qed.

Lemma propose_passed_over (g g' : Group) (c : Control) :
  propose g c = Ok g' -> Forall2 passed_over (g_params g) (g_params g').
Proof.
  unfold propose. intros H. inv_bind H. injection H as <-. simpl.
  eapply Forall2_impl; [|apply propose_params_pointwise; eassumption].
  intros p p'. apply propose_param_passed_over.
Qed.

Lemma propose_at_proposal (g g' : Group) (c : Control) :
  propose g c = Ok g' -> Forall (at_proposal (g_dt g')) (g_params g').
Proof.
  unfold propose. intros H. inv_bind H. injection H as <-. simpl.
  apply propose_params_pointwise in Ha.
  induction Ha as [|p p' ps ps' Hp Hps IH]; constructor; [|exact IH].
  eapply propose_param_at; eassumption.
Qed.

Lemma acceptance_passed_over (g g' : Group) (c : Control) :
  acceptance_test g c = Ok g' -> Forall2 passed_over (g_params g) (g_params g').
Proof.
  unfold acceptance_test. intros H. inv_bind H.
  destruct (Rlt_dec a (g_high_bound g)).
  - inv_bind H. injection H as <-. simpl.
    eapply Forall2_impl; [|apply save_state_pointwise; eassumption].
    intros p p'. apply save_param_passed_over.
  - injection H as <-. simpl.
    induction (g_params g) as [|p ps IH]; constructor; [|exact IH].
    split; auto.
Qed.

(** The group that the body of the loop leaves at its index. *)
Lemma step_group_result (o o' : Optimizer) (i : nat) (g : Group) :
  nth_error o i = Some g ->
  step_group o i g = Ok o' ->
  exists g1 c1 g',
    nth_error o' i = Some g' /\
    propose g1 c1 = Ok g' /\
    match g_control g with
    | None => g1 = reset_group g
    | Some c => acceptance_test g c = Ok g1
    end.
Proof.
  intros Hnth. unfold step_group. destruct (g_control g) as [c|]; intros H.
  - inv_bind H. inv_bind H. inv_bind H. injection H as <-.
    exists a, a0, a1. split; [eapply nth_error_update_eq; eassumption|]. auto.
  - inv_bind H. injection H as <-.
    exists (reset_group g), initial_control, a. split; [|auto].
    eapply nth_error_update_eq. rewrite nth_error_reset, Hnth. reflexivity.
Qed.

Lemma step_None_body (g : Group) (o' : Optimizer) :
  step None [g] = Ok (None, o') -> step_group [g] 0 g = Ok o'.
Proof.
  intros H. apply step_inv in H. destruct H as [_ H]. simpl in H.
  rewrite step_groups_single in H. exact H.
Qed.

Lemma scenario_body1 (x0 : R) :
  step_group [scenario_constructed x0] 0 (scenario_constructed x0)
  = Ok [scenario_first x0].
Proof. apply step_None_body, scenario_step1. Qed.

Lemma scenario_body2 (x0 : R) :
  step_group [scenario_first x0] 0 (scenario_first x0) = Ok [scenario_second x0].
Proof. apply step_None_body, scenario_step2. Qed.

Lemma scenario_frozen_body (x0 y0 : R) :
  step_group [scenario_frozen x0 y0] 0 (scenario_frozen x0 y0)
  = Ok [scenario_frozen_first x0 y0].
Proof.
  run_model. rdec. run_model. rdec.
  replace (- (1) / 1) with (-1) by lra.
  same_reals.
Qed.

(** X6.  Whenever the body of the loop returns, at a group initialised or not,
    accepted or rejected, it leaves every parameter that has a gradient with
    its four state keys and at the value
    [committed position + dt * proposed velocity], for the [dt] the group has
    after the body. *)
Theorem proposal_position (o o' : Optimizer) (i : nat) (g : Group) :
  nth_error o i = Some g ->
  step_group o i g = Ok o' ->
  exists g', nth_error o' i = Some g' /\
             Forall (at_proposal (g_dt g')) (g_params g').
Proof.
  intros Hnth H.
  destruct (step_group_result o o' i g Hnth H) as (g1 & c1 & g' & Hg' & Hp & _).
  exists g'. split; [exact Hg'|]. eapply propose_at_proposal. eassumption.
Qed.

(** X6, at the first call of the scenario. *)
Lemma proposal_position_witness :
  exists g', nth_error [scenario_first 0] 0 = Some g' /\
             Forall (at_proposal (g_dt g')) (g_params g').
Proof.
  apply (proposal_position [scenario_constructed 0] [scenario_first 0] 0
           (scenario_constructed 0)).
  - reflexivity.
  - apply scenario_body1.
Defined.

(** X7.  The body of the loop never writes a gradient, and it passes over a
    parameter that has none: such a parameter keeps its value and its whole
    state entry, whether the group is reset, accepted or rejected. *)
Theorem parameters_without_gradient_untouched
    (o o' : Optimizer) (i : nat) (g : Group) :
  nth_error o i = Some g ->
  step_group o i g = Ok o' ->
  exists g', nth_error o' i = Some g' /\
             Forall2 (fun p p' => p_grad p' = p_grad p /\
                                  (p_grad p = None -> p' = p))
                     (g_params g) (g_params g').
Proof.
  intros Hnth H.
  destruct (step_group_result o o' i g Hnth H) as (g1 & c1 & g' & Hg' & Hp & Hg1).
  exists g'. split; [exact Hg'|].
  apply propose_passed_over in Hp.
  apply (Forall2_compose passed_over passed_over passed_over _ (g_params g1));
    [apply passed_over_trans | | exact Hp].
  destruct (g_control g) as [c|].
  - eapply acceptance_passed_over. eassumption.
  - subst g1. simpl.
    induction (g_params g) as [|p ps IH]; constructor; [|exact IH].
    apply reset_param_passed_over.
Qed.

(** X7, at the first call of the scenario with a second parameter that has no
    gradient. *)
Lemma parameters_without_gradient_untouched_witness :
  exists g', nth_error [scenario_frozen_first 0 7] 0 = Some g' /\
             Forall2 (fun p p' => p_grad p' = p_grad p /\
                                  (p_grad p = None -> p' = p))
                     (g_params (scenario_frozen 0 7)) (g_params g').
Proof.
  apply (parameters_without_gradient_untouched
           [scenario_frozen 0 7] [scenario_frozen_first 0 7] 0 (scenario_frozen 0 7)).
  - reflexivity.
  - apply scenario_frozen_body.
Defined.

Lemma save_param_commits (p p' : Param) (pg : Tensor) :
  save_param p = Ok p' -> p_grad p = Some pg ->
  committed p' = (Some pg, Some (p_data p), st_new_velocity (p_state p)) /\
  p_grad p' = Some pg.
Proof.
  unfold save_param. intros H Hg. rewrite Hg in H. inv_bind H.
  apply getitem_Ok in Ha. injection H as <-. rewrite Ha. auto.
Qed.

(** X8.  An accepted test commits the proposal as a whole: for every parameter
    that has a gradient, the committed gradient becomes the current gradient,
    the committed position the current value, and the committed velocity the
    velocity that the previous call proposed, all three together. *)
Theorem acceptance_commits_proposal
    (o o' : Optimizer) (i : nat) (g : Group) (c : Control) (r : R) :
  nth_error o i = Some g ->
  g_control g = Some c ->
  relnorm g = Ok r ->
  r < g_high_bound g ->
  step_group o i g = Ok o' ->
  exists g', nth_error o' i = Some g' /\
             Forall2 (fun p p' =>
                        forall pg, p_grad p = Some pg ->
                          committed p' = (Some pg, Some (p_data p),
                                          st_new_velocity (p_state p)))
                     (g_params g) (g_params g').
Proof.
  intros Hnth Hc Hr Hhigh H.
  destruct (step_group_result o o' i g Hnth H) as (g1 & c1 & g' & Hg' & Hp & Hg1).
  rewrite Hc in Hg1. exists g'. split; [exact Hg'|].
  destruct (acceptance_accept _ _ _ _ Hr Hhigh Hg1) as (_ & _ & _ & Hsave).
  apply save_state_pointwise in Hsave.
  unfold propose in Hp. inv_bind Hp. injection Hp as <-. simpl.
  apply propose_params_pointwise in Ha.
  eapply Forall2_compose; [|exact Hsave|exact Ha].
  intros p p1 p2 Hs Hprop pg Hg. simpl in Hs, Hprop.
  destruct (save_param_commits _ _ _ Hs Hg) as [Ecom _].
  destruct (propose_param_frame _ _ _ _ _ Hprop) as [E _].
  rewrite E. exact Ecom.
Qed.

(** X8, at the second call of the scenario. *)
Lemma acceptance_commits_proposal_witness :
  exists g', nth_error [scenario_second 0] 0 = Some g' /\
             Forall2 (fun p p' =>
                        forall pg, p_grad p = Some pg ->
                          committed p' = (Some pg, Some (p_data p),
                                          st_new_velocity (p_state p)))
                     (g_params (scenario_first 0)) (g_params g').
Proof.
  apply (acceptance_commits_proposal [scenario_first 0] [scenario_second 0] 0
           (scenario_first 0) (mkControl 0 0 true) 0).
  - reflexivity.
  - reflexivity.
  - apply scenario_relnorm.
  - simpl. lra.
  - apply scenario_body2.
Defined.

(** ** A high bound that is not positive *)




(** ** What no call changes *)

Lemma map_update_same {A B : Type} (f : A -> B) (i : nat) (x y : A) (l : list A) :
  nth_error l i = Some y -> f x = f y -> map f (update i x l) = map f l.
Proof.
  revert i. induction l as [|z l IH]; intros [|i]; simpl; intros Hn Hf;
    try discriminate Hn.
  - injection Hn as ->. rewrite Hf. reflexivity.
  - rewrite (IH _ Hn Hf). reflexivity.
Qed.

Lemma length_mapi_from {A B : Type} (f : nat -> A -> B) (k : nat) (l : list A) :
  length (mapi_from f k l) = length l.
Proof.
  revert k. induction l as [|x l IH]; intros k; simpl; [reflexivity|].
  rewrite IH. reflexivity.
Qed.

Lemma reset_group_layout (g : Group) : layout (reset_group g) = layout g.
Proof. unfold layout, settings. simpl. rewrite length_map. reflexivity. Qed.

Lemma propose_layout (g g' : Group) (c : Control) :
  propose g c = Ok g' -> layout g' = layout g.
Proof.
  intros H. pose proof (propose_passed_over _ _ _ H) as Hlen.
  apply Forall2_length in Hlen.
  destruct (propose_frame _ _ _ H) as (Et & _ & El & Eh & _).
  unfold layout, settings. rewrite Et, El, Eh, Hlen. reflexivity.
Qed.

Lemma acceptance_layout (g g' : Group) (c : Control) :
  acceptance_test g c = Ok g' -> layout g' = layout g.
Proof.
  intros H. pose proof (acceptance_passed_over _ _ _ H) as Hlen.
  apply Forall2_length in Hlen. unfold acceptance_test in H. inv_bind H.
  unfold layout, settings. rewrite <- Hlen.
  destruct (Rlt_dec a (g_high_bound g)).
  - inv_bind H. injection H as <-. reflexivity.
  - injection H as <-. reflexivity.
Qed.

Lemma step_group_layout (o o' : Optimizer) (i : nat) (g : Group) :
  nth_error o i = Some g ->
  step_group o i g = Ok o' ->
  map layout o' = map layout o.
Proof.
  intros Hnth. unfold step_group. destruct (g_control g) as [c|]; intros H.
  - inv_bind H. inv_bind H. inv_bind H. injection H as <-.
    apply (map_update_same layout i a1 g o Hnth).
    rewrite (propose_layout _ _ _ Ha1). eapply acceptance_layout. eassumption.
  - inv_bind H. injection H as <-.
    rewrite (map_update_same layout i a (reset_group g) (reset o)).
    + unfold reset. rewrite map_map. apply map_ext. apply reset_group_layout.
    + rewrite nth_error_reset, Hnth. reflexivity.
    + eapply propose_layout. eassumption.
Qed.

Lemma step_loop_layout (n i : nat) (o o' : Optimizer) :
  step_loop n i o = Ok o' -> map layout o' = map layout o.
Proof.
  revert i o. induction n as [|n IH]; simpl; intros i o H.
  - injection H as <-. reflexivity.
  - destruct (nth_error o i) as [g|] eqn:Eg.
    + inv_bind H. rewrite (IH _ _ H). eapply step_group_layout; eassumption.
    + injection H as <-. reflexivity.
Qed.

Lemma provide_layout (f : Provider) (o : Optimizer) :
  map layout (provide f o) = map layout o.
Proof.
  unfold provide. generalize 0%nat.
  induction o as [|g o IH]; intros k; simpl; [reflexivity|].
  rewrite IH. f_equal. unfold layout, settings, provide_group. simpl.
  rewrite length_mapi_from. reflexivity.
Qed.

Lemma step_layout (closure : option Closure) (o o' : Optimizer) (r : option Loss) :
  step closure o = Ok (r, o') -> map layout o' = map layout o.
Proof.
  intros H. apply step_inv in H. destruct H as [_ H].
  apply step_loop_layout in H. rewrite H.
  destruct closure as [c|]; simpl; [|reflexivity].
  destruct (c o) as [l f]. simpl. apply provide_layout.
Qed.

(** X10.  No sequence of calls changes the layout of the optimizer: the
    number of groups, the number of parameters of each group, and [tau],
    [low_bound] and [high_bound] stay what they were at construction; of the
    settings only [dt] is adapted. *)
Theorem layout_is_kept (cs : list call) (o o' : Optimizer) :
  run cs o = Ok o' -> map layout o' = map layout o.
Proof.
  revert o. induction cs as [|[|closure|f] cs IH]; simpl; intros o H.
  - injection H as <-. reflexivity.
  - rewrite (IH _ H). unfold reset. rewrite map_map.
    apply map_ext. apply reset_group_layout.
  - inv_bind H. destruct a as [r o1]. rewrite (IH _ H).
    eapply step_layout. eassumption.
  - rewrite (IH _ H). apply provide_layout.
Qed.

(** X10, along the two calls of the scenario, followed by a reset. *)
Lemma layout_is_kept_witness :
  map layout (reset [scenario_second 0]) = map layout [scenario_constructed 0].
Proof.
  apply (layout_is_kept [CallStep None; CallStep None; CallReset]
           [scenario_constructed 0] (reset [scenario_second 0])).
  simpl. rewrite scenario_step1. simpl. rewrite scenario_step2. reflexivity.
Defined.

(** ** The clock of a group *)

Lemma acceptance_control_sound (g g' : Group) (c : Control) :
  g_control g = Some c -> dt_positive g -> control_sound g ->
  acceptance_test g c = Ok g' -> control_sound g'.
Proof.
  unfold control_sound, dt_positive, acceptance_test.
  intros Hc Hdt Hs H. rewrite Hc in Hs. destruct Hs as (Ht & Hn & Hz).
  inv_bind H. destruct (Rlt_dec a (g_high_bound g)).
  - inv_bind H. injection H as <-. simpl.
    split; [lra|]. split; [lia|]. split; intros E; [lia|lra].
  - injection H as <-. simpl. auto.
Qed.

Lemma propose_control_sound (g g' : Group) (c : Control) :
  propose g c = Ok g' -> control_sound g -> control_sound g'.
Proof.
  unfold control_sound. intros H Hs.
  destruct (propose_frame _ _ _ H) as (_ & _ & _ & _ & -> & _). exact Hs.
Qed.

Lemma reset_control_sound (o : Optimizer) : Forall control_sound (reset o).
Proof.
  unfold reset. apply Forall_map. apply Forall_forall. intros g _.
  unfold control_sound. simpl. split; [lra|]. split; [lia|]. tauto.
Qed.

Lemma provide_control_sound (f : Provider) (o : Optimizer) :
  Forall control_sound o -> Forall control_sound (provide f o).
Proof.
  unfold provide. generalize 0%nat.
  induction o as [|g o IH]; intros k H; simpl; [constructor|].
  inversion H as [|? ? Hg Ho]; subst.
  constructor; [exact Hg | apply IH, Ho].
Qed.

Lemma step_group_control_sound (o o' : Optimizer) (i : nat) (g : Group) :
  Forall control_sound o -> dt_positive g -> control_sound g ->
  step_group o i g = Ok o' -> Forall control_sound o'.
Proof.
  intros Ho Hdt Hg. unfold step_group.
  destruct (g_control g) as [c|] eqn:Ec; intros H.
  - inv_bind H. inv_bind H. inv_bind H. injection H as <-.
    apply Forall_update; [|exact Ho].
    eapply propose_control_sound; [eassumption|].
    eapply acceptance_control_sound; eassumption.
  - inv_bind H. injection H as <-.
    apply Forall_update; [|apply reset_control_sound].
    eapply propose_control_sound; [eassumption|].
    unfold control_sound. simpl. split; [lra|]. split; [lia|]. tauto.
Qed.

Lemma step_loop_control_sound (n i : nat) (o o' : Optimizer) :
  Forall dt_positive o -> Forall control_sound o ->
  step_loop n i o = Ok o' -> Forall control_sound o'.
Proof.
  revert i o. induction n as [|n IH]; simpl; intros i o Hdt Hs H.
  - injection H as <-. exact Hs.
  - destruct (nth_error o i) as [g|] eqn:Eg.
    + inv_bind H.
      pose proof (proj1 (Forall_forall _ _) Hdt g (nth_error_In _ _ Eg)) as Hg.
      pose proof (proj1 (Forall_forall _ _) Hs g (nth_error_In _ _ Eg)) as Hg'.
      apply (IH (S i) a).
      * eapply step_group_dt_positive; eassumption.
      * eapply step_group_control_sound; eassumption.
      * exact H.
    + injection H as <-. exact Hs.
Qed.

Lemma step_control_sound (closure : option Closure) (o o' : Optimizer) (r : option Loss) :
  Forall dt_positive o -> Forall control_sound o ->
  step closure o = Ok (r, o') -> Forall control_sound o'.
Proof.
  intros Hdt Hs H. apply step_inv in H. destruct H as [_ H].
  apply step_loop_control_sound in H; [exact H| |].
  - destruct closure as [c|]; simpl; [|exact Hdt].
    destruct (c o) as [l f]. simpl. apply provide_dt_positive, Hdt.
  - destruct closure as [c|]; simpl; [|exact Hs].
    destruct (c o) as [l f]. simpl. apply provide_control_sound, Hs.
Qed.

(** X11.  Stated over real numbers: with positive step sizes the clock of
    every group stays sound along any sequence of calls that do not raise:
    [t] and the step count are never negative, and [t] is 0 exactly as long as
    the step count is 0, that is until the first accepted step after a reset.
    (A binary64 [dt] that has underflowed to [0.0] is not positive any more:
    a step accepted then leaves [t = 0] at step count 1.) *)
Theorem clock_stays_sound (cs : list call) (o o' : Optimizer) :
  Forall (fun g => 0 < g_dt g) o ->
  Forall control_sound o ->
  run cs o = Ok o' ->
  Forall control_sound o'.
Proof.
  fold dt_positive. revert o.
  induction cs as [|[|closure|f] cs IH]; simpl; intros o Hdt Hs H.
  - injection H as <-. exact Hs.
  - apply (IH _ (reset_dt_positive _ Hdt) (reset_control_sound o) H).
  - inv_bind H. destruct a as [r o1].
    apply (IH _ (step_dt_positive _ _ _ _ Hdt Ha)
              (step_control_sound _ _ _ _ Hdt Hs Ha) H).
  - apply (IH _ (provide_dt_positive _ _ Hdt) (provide_control_sound _ _ Hs) H).
Qed.

(** X11, along the two calls of the scenario. *)
Lemma clock_stays_sound_witness : Forall control_sound [scenario_second 0].
Proof.
  apply (clock_stays_sound [CallStep None; CallStep None]
           [scenario_constructed 0] [scenario_second 0]).
  - constructor; [simpl; lra|constructor].
  - constructor; [exact I|constructor].
  - simpl. rewrite scenario_step1. simpl. rewrite scenario_step2. reflexivity.
Defined.

(** ** The exceptions of step *)

Lemma truediv_raises (a b : R) (e : exception) :
  Py.truediv a b = Raise e -> e = ZeroDivisionError.
Proof.
  unfold Py.truediv. destruct (Req_dec_T b 0); intros H;
    [injection H as <-; reflexivity | discriminate H].
Qed.

Lemma pow_raises (x y : R) (e : exception) :
  Py.pow x y = Raise e -> e = ZeroDivisionError \/ e = RuntimeError.
Proof.
  unfold Py.pow. intros H.
  destruct (Rlt_dec 0 x); [discriminate H|].
  destruct (Req_dec_T x 0).
  - destruct (Rlt_dec 0 y); [discriminate H|].
    destruct (Req_dec_T y 0); [discriminate H|]. injection H as <-. auto.
  - destruct (Py.is_integer y); [discriminate H|]. injection H as <-. auto.
Qed.

Lemma getitem_raises {A : Type} (v : option A) (e : exception) :
  Py.getitem v = Raise e -> e = KeyError.
Proof. destruct v; simpl; intros H; [discriminate H|injection H as <-; reflexivity]. Qed.

Lemma bind_Raise {A B : Type} (m : result A) (k : A -> result B) (e : exception) :
  bind m k = Raise e -> m = Raise e \/ exists a, m = Ok a /\ k a = Raise e.
Proof.
  destruct m as [a|e']; simpl; intros H; [eauto|].
  left. injection H as ->. reflexivity.
Qed.

Lemma save_state_raises (ps : list Param) (e : exception) :
  save_state ps = Raise e -> e = KeyError.
Proof.
  induction ps as [|p ps IH]; simpl; intros H; [discriminate H|].
  apply bind_Raise in H. destruct H as [H|(p' & _ & H)].
  - unfold save_param in H. destruct (p_grad p); [|discriminate H].
    apply bind_Raise in H. destruct H as [H|(nv & _ & H)]; [|discriminate H].
    eapply getitem_raises. eassumption.
  - apply bind_Raise in H. destruct H as [H|(ps' & _ & H)]; [auto|discriminate H].
Qed.

Lemma acceptance_raises (g : Group) (c : Control) (e : exception) :
  acceptance_test g c = Raise e -> e = KeyError \/ e = ZeroDivisionError.
Proof.
  unfold acceptance_test. intros H.
  apply bind_Raise in H. destruct H as [H|(r & _ & H)].
  - eapply relnorm_exceptions. eassumption.
  - destruct (Rlt_dec r (g_high_bound g)); [|discriminate H].
    apply bind_Raise in H. destruct H as [H|(ps & _ & H)]; [|discriminate H].
    left. eapply save_state_raises. eassumption.
Qed.

Lemma propose_velocity_raises (tau dt t : R) (g v : Tensor) (e : exception) :
  propose_velocity tau dt t g v = Raise e ->
  tau < 0 /\ (e = ZeroDivisionError \/ e = RuntimeError).
Proof.
  unfold propose_velocity. intros H.
  destruct (Rlt_dec 0 tau) as [Hpos|_].
  - rewrite truediv_ok in H by lra. discriminate H.
  - destruct (Rlt_dec tau 0) as [Hneg|_]; [|discriminate H].
    split; [exact Hneg|].
    apply bind_Raise in H. destruct H as [H|(q & _ & H)].
    + left. eapply truediv_raises. eassumption.
    + apply bind_Raise in H. destruct H as [H|(x & _ & H)]; [|discriminate H].
      eapply pow_raises. eassumption.
Qed.

Lemma propose_param_raises (tau dt t : R) (p : Param) (e : exception) :
  propose_param tau dt t p = Raise e ->
  e = KeyError \/ e = ZeroDivisionError \/ (e = RuntimeError /\ tau < 0).
Proof.
  unfold propose_param. destruct (p_grad p); intros H; [|discriminate H].
  apply bind_Raise in H. destruct H as [H|(g & _ & H)];
    [left; eapply getitem_raises; eassumption|].
  apply bind_Raise in H. destruct H as [H|(v0 & _ & H)];
    [left; eapply getitem_raises; eassumption|].
  apply bind_Raise in H. destruct H as [H|(v & _ & H)].
  - apply propose_velocity_raises in H. destruct H as [Hneg [->| ->]]; auto.
  - apply bind_Raise in H. destruct H as [H|(x0 & _ & H)]; [|discriminate H].
    left. eapply getitem_raises. eassumption.
Qed.

Lemma propose_raises (g : Group) (c : Control) (e : exception) :
  propose g c = Raise e ->
  e = KeyError \/ e = ZeroDivisionError \/ (e = RuntimeError /\ g_tau g < 0).
Proof.
  unfold propose. intros H.
  apply bind_Raise in H. destruct H as [H|(ps & _ & H)]; [|discriminate H].
  revert H. generalize (g_dt g), (ctl_t c).
  induction (g_params g) as [|p ps IH]; simpl; intros dt t H; [discriminate H|].
  apply bind_Raise in H. destruct H as [H|(p' & _ & H)].
  - eapply propose_param_raises. eassumption.
  - apply bind_Raise in H. destruct H as [H|(ps' & _ & H)]; [eauto|discriminate H].
Qed.

Lemma layout_tau (g g' : Group) : layout g' = layout g -> g_tau g' = g_tau g.
Proof.
  intros H. apply (f_equal (fun x => fst (fst (fst x)))) in H. exact H.
Qed.

Lemma step_group_raises (o : Optimizer) (i : nat) (g : Group) (e : exception) :
  step_group o i g = Raise e ->
  e = KeyError \/ e = ZeroDivisionError \/ (e = RuntimeError /\ g_tau g < 0).
Proof.
  unfold step_group. destruct (g_control g) as [c|]; intros H.
  - apply bind_Raise in H. destruct H as [H|(g1 & Hg1 & H)].
    { apply acceptance_raises in H. tauto. }
    apply bind_Raise in H. destruct H as [H|(c1 & _ & H)].
    { left. eapply getitem_raises. eassumption. }
    apply bind_Raise in H. destruct H as [H|(g2 & _ & H)]; [|discriminate H].
    apply propose_raises in H.
    apply acceptance_layout, layout_tau in Hg1. rewrite Hg1 in H. exact H.
  - apply bind_Raise in H. destruct H as [H|(g2 & _ & H)]; [|discriminate H].
    apply propose_raises in H. exact H.
Qed.

Lemma layout_power_law (o o' : Optimizer) :
  map layout o' = map layout o ->
  Exists (fun g => g_tau g < 0) o' -> Exists (fun g => g_tau g < 0) o.
Proof.
  revert o'. induction o as [|g o IH]; intros [|g' o'] E H;
    try discriminate E; [inversion H|].
  simpl in E.
  assert (Eg : layout g' = layout g) by congruence.
  assert (Eo : map layout o' = map layout o) by congruence.
  apply layout_tau in Eg.
  inversion H as [? ? Hg|? ? Ho]; subst.
  - left. rewrite <- Eg. exact Hg.
  - right. apply (IH o' Eo Ho).
Qed.

Lemma step_loop_raises (n i : nat) (o : Optimizer) (e : exception) :
  step_loop n i o = Raise e ->
  e = KeyError \/ e = ZeroDivisionError \/
  (e = RuntimeError /\ Exists (fun g => g_tau g < 0) o).
Proof.
  revert i o. induction n as [|n IH]; simpl; intros i o H; [discriminate H|].
  destruct (nth_error o i) as [g|] eqn:Eg; [|discriminate H].
  apply bind_Raise in H. destruct H as [H|(o1 & Ho1 & H)].
  - apply step_group_raises in H.
    destruct H as [H|[H|[H Hneg]]]; auto.
    right. right. split; [exact H|].
    apply Exists_exists. exists g. split; [eapply nth_error_In; eassumption|exact Hneg].
  - apply IH in H. destruct H as [H|[H|[H Hex]]]; auto.
    right. right. split; [exact H|].
    eapply layout_power_law; [|exact Hex].
    eapply step_group_layout; eassumption.
Qed.

Lemma flat_group_step : step None [flat_group 0] = Raise ZeroDivisionError.
Proof.
  unfold step, call_closure. rewrite step_groups_single.
  rewrite (step_group_initialised _ _ _ (mkControl 0 0 true)) by reflexivity.
  unfold acceptance_test.
  rewrite (proj2 (relnorm_unchanged (flat_group 0)
                    ltac:(constructor; [reflexivity|constructor]))).
  - reflexivity.
  - simpl. lra.
Qed.

(** X12.  The exceptions of [step]: a call raises [KeyError] (a state key is
    missing), [ZeroDivisionError] (the degenerate estimate, or [t + dt = 0]
    under the power law) or, for a group with [tau < 0] only, the error of a
    complex weight; [math.sqrt] never reports a domain error, because its
    argument is a product of sums of squares. *)
Theorem step_exceptions (closure : option Closure) (o : Optimizer) (e : exception) :
  step closure o = Raise e ->
  e = KeyError \/ e = ZeroDivisionError \/
  (e = RuntimeError /\ Exists (fun g => g_tau g < 0) o).
Proof.
  unfold step. destruct (call_closure closure o) as [loss o1] eqn:Ec. intros H.
  apply bind_Raise in H. destruct H as [H|(o2 & _ & H)]; [|discriminate H].
  apply step_loop_raises in H. destruct H as [H|[H|[H Hex]]]; auto.
  right. right. split; [exact H|].
  destruct closure as [c|]; simpl in Ec.
  - destruct (c o) as [l f]. injection Ec as _ <-.
    eapply layout_power_law; [|exact Hex]. apply provide_layout.
  - injection Ec as _ <-. exact Hex.
Qed.

(** X12, at a group whose committed and current gradients are both zero. *)
Lemma step_exceptions_witness :
  ZeroDivisionError = KeyError \/ ZeroDivisionError = ZeroDivisionError \/
  (ZeroDivisionError = RuntimeError /\
   Exists (fun g => g_tau g < 0) [flat_group 0]).
Proof.
  apply (step_exceptions None [flat_group 0] ZeroDivisionError).
  apply flat_group_step.
Defined.

(** ** When the body of the loop returns *)

Lemma relnorm_defined (g : Group) (a2 b2 ab : R) :
  gradient_sums (g_params g) (0, 0, 0) = Ok (a2, b2, ab) ->
  a2 * b2 <> 0 ->
  exists r, relnorm g = Ok r.
Proof.
  intros Hs Hnz. unfold relnorm. rewrite Hs. simpl.
  destruct (gradient_sums_nonneg _ _ _ _ _ _ _ (Rle_refl 0) (Rle_refl 0) Hs)
    as [Ha Hb].
  assert (Hprod : 0 <= a2 * b2) by (apply Rmult_le_pos; assumption).
  rewrite math_sqrt_ok by exact Hprod. simpl.
  rewrite truediv_ok; [eauto|].
  intros Hz. apply (sqrt_eq_0 _ Hprod) in Hz. contradiction.
Qed.

Lemma advance_body_ok (o : Optimizer) (i : nat) (g : Group) (c : Control) (r : R) :
  g_control g = Some c ->
  relnorm g = Ok r ->
  forallb has_committed (g_params g) = true ->
  forallb has_proposal (g_params g) = true ->
  (g_tau g < 0 -> 0 <= ctl_t c /\ 0 < g_dt g) ->
  exists o', step_group o i g = Ok o'.
Proof.
  intros Hc Hr Hcom Hprop Hlaw. rewrite (step_group_initialised o i g c Hc).
  unfold acceptance_test. rewrite Hr. simpl.
  destruct (Rlt_dec r (g_high_bound g)) as [Hacc|Hrej].
  - destruct (save_state_ok _ Hprop) as [ps' Eps]. rewrite Eps. simpl.
    unfold propose. simpl.
    destruct (propose_params_ok (g_tau g)
                (if Rlt_dec r (g_low_bound g) then g_dt g * 1.1 else g_dt g)
                (ctl_t c + g_dt g) ps') as [ps'' Eps''].
    + intros Hneg. destruct (Hlaw Hneg) as [Ht Hdt].
      assert (0 < (if Rlt_dec r (g_low_bound g) then g_dt g * 1.1 else g_dt g))
        by (destruct (Rlt_dec r (g_low_bound g)); lra).
      split; [lra|]. apply quotient_nonneg; lra.
    + eapply save_state_committed; eassumption.
    + rewrite Eps''. simpl. eauto.
  - simpl. unfold propose. simpl.
    destruct (propose_params_ok (g_tau g) (g_dt g / 10) (ctl_t c) (g_params g))
      as [ps' Eps'].
    + intros Hneg. destruct (Hlaw Hneg) as [Ht Hdt].
      split; [lra|]. apply quotient_nonneg; lra.
    + exact Hcom.
    + rewrite Eps'. simpl. eauto.
Qed.

(** X13.  Stated over real numbers: at an initialised group with [dt > 0]
    (and [t >= 0] under the power law) whose parameters with a gradient have
    their committed state and a proposed velocity (as every call that
    returned leaves them), the body of the loop fails in one case only: it
    returns exactly when [a2 * b2] is not zero.  (With [dt > 0] the argument
    of [math.exp] is negative and the base of the power is in [[0, 1)]:
    neither overflows.) *)
Theorem body_returns_unless_degenerate
    (o : Optimizer) (i : nat) (g : Group) (c : Control) (a2 b2 ab : R) :
  g_control g = Some c ->
  gradient_sums (g_params g) (0, 0, 0) = Ok (a2, b2, ab) ->
  forallb has_committed (g_params g) = true ->
  forallb has_proposal (g_params g) = true ->
  0 < g_dt g ->
  (g_tau g < 0 -> 0 <= ctl_t c) ->
  ((exists o', step_group o i g = Ok o') <-> a2 * b2 <> 0).
Proof.
  intros Hc Hs Hcom Hprop Hdt Ht.
  assert (Hlaw : g_tau g < 0 -> 0 <= ctl_t c /\ 0 < g_dt g) by auto.
  split.
  - intros [o' H] Hz.
    rewrite (step_group_initialised o i g c Hc) in H.
    unfold acceptance_test, relnorm in H. rewrite Hs in H. cbn [bind] in H.
    rewrite (relnorm_of_degenerate _ _ _ Hz) in H. discriminate H.
  - intros Hnz. destruct (relnorm_defined g a2 b2 ab Hs Hnz) as [r Hr].
    apply (advance_body_ok o i g c r); assumption.
Qed.

(** X13, at the second call of the scenario. *)
Lemma body_returns_unless_degenerate_witness :
  (exists o', step_group [scenario_first 0] 0 (scenario_first 0) = Ok o') <->
  (0 + Tensor.norm [2] ^ 2) * (0 + Tensor.norm [2] ^ 2) <> 0.
Proof.
  apply (body_returns_unless_degenerate [scenario_first 0] 0 (scenario_first 0)
           (mkControl 0 0 true) _ _ (0 + Tensor.sum (Tensor.mul [2] [2]))).
  - reflexivity.
  - reflexivity.
  - reflexivity.
  - reflexivity.
  - simpl. lra.
  - simpl. lra.
Defined.

(** ** The velocity laws *)

Lemma exponential_weight (tau dt : R) :
  0 < tau -> 0 < dt -> 0 < exp (- dt / tau) < 1.
Proof.
  intros Htau Hdt. split; [apply exp_pos|].
  rewrite <- exp_0. apply exp_increasing.
  unfold Rdiv. pose proof (Rinv_0_lt_compat tau Htau). nra.
Qed.

Lemma power_weight (mu t dt : R) :
  0 < mu -> 0 < t -> 0 < dt -> 0 < Rpower (t / (t + dt)) mu < 1.
Proof.
  intros Hmu Ht Hdt. unfold Rpower. split; [apply exp_pos|].
  rewrite <- exp_0. apply exp_increasing.
  assert (Hq : 0 < t / (t + dt) < 1).
  { split.
    - apply Rdiv_lt_0_compat; lra.
    - apply (Rmult_lt_reg_r (t + dt)); [lra|].
      unfold Rdiv. rewrite Rmult_assoc, Rinv_l by lra. lra. }
  pose proof (ln_increasing _ _ (proj1 Hq) (proj2 Hq)) as Hln.
  rewrite ln_1 in Hln. nra.
Qed.

(** X14.  For [dt > 0], under the exponential law ([tau > 0]) and under the
    power law after the first accepted step ([tau < 0], [t > 0]), the proposed
    velocity is a strict interpolation [x * v0 + (1 - x) * (-g)] between the
    committed velocity and the negated committed gradient, with a weight
    [0 < x < 1]; no exception is raised. *)
Theorem velocity_is_interpolation (tau dt t : R) (g v : Tensor) :
  0 < dt ->
  0 < tau \/ (tau < 0 /\ 0 < t) ->
  exists x, 0 < x < 1 /\
            propose_velocity tau dt t g v
            = Ok (Tensor.add_ (Tensor.mul_ v x) (- (1 - x)) g).
Proof.
  intros Hdt [Htau|[Htau Ht]]; unfold propose_velocity.
  - exists (exp (- dt / tau)). split; [apply exponential_weight; assumption|].
    destruct (Rlt_dec 0 tau) as [_|N]; [|contradiction].
    rewrite truediv_ok by lra. reflexivity.
  - exists (Rpower (t / (t + dt)) (- tau)).
    split; [apply power_weight; lra|].
    destruct (Rlt_dec 0 tau) as [L|_]; [lra|].
    destruct (Rlt_dec tau 0) as [_|N]; [|contradiction].
    rewrite truediv_ok by lra. simpl.
    rewrite pow_pos_base by (apply Rdiv_lt_0_compat; lra). reflexivity.
Qed.

(** X14, for the first proposal of the scenario. *)
Lemma velocity_is_interpolation_witness :
  exists x, 0 < x < 1 /\
            propose_velocity 1 1 0 [2] [0]
            = Ok (Tensor.add_ (Tensor.mul_ [0] x) (- (1 - x)) [2]).
Proof.
  apply (velocity_is_interpolation 1 1 0 [2] [0]).
  - lra.
  - left. lra.
Defined.

Lemma add__zeros_scale (d g : Tensor) (x a : R) :
  length d = length g ->
  Tensor.add_ (Tensor.mul_ (Tensor.zeros_like d) x) a g = Tensor.scale a g.
Proof.
  revert g. induction d as [|y d IH]; intros [|z g] Hlen; simpl in *;
    try discriminate; [reflexivity|].
  injection Hlen as Hlen.
  unfold Tensor.add_, Tensor.mul_, Tensor.zeros_like, Tensor.scale in *. simpl.
  f_equal; [lra | apply IH; exact Hlen].
Qed.

(** X15.  Under the exponential law with [dt > 0] the first call is a plain
    gradient step: for a parameter whose gradient has the shape of its value,
    the velocity proposed after the lazy reset is
    [-(1 - exp(-dt/tau)) * p.grad], and the parameter moves to
    [p + dt * velocity]. *)
Theorem first_proposal_is_gradient_step (tau dt : R) (p : Param) (gr : Tensor) :
  0 < tau ->
  0 < dt ->
  p_grad p = Some gr ->
  length (p_data p) = length gr ->
  exists p',
    propose_param tau dt 0 (reset_param p) = Ok p' /\
    st_new_velocity (p_state p')
    = Some (Tensor.scale (- (1 - exp (- dt / tau))) gr) /\
    p_data p'
    = Tensor.add (p_data p)
        (Tensor.scale dt (Tensor.scale (- (1 - exp (- dt / tau))) gr)).
Proof.
  intros Htau _ Hg Hshape. unfold propose_param, reset_param. rewrite Hg. simpl.
  unfold propose_velocity.
  destruct (Rlt_dec 0 tau) as [_|N]; [|contradiction].
  rewrite truediv_ok by lra. simpl.
  rewrite add__zeros_scale by exact Hshape. eauto.
Qed.

(** X15, for the parameter of the scenario. *)
Lemma first_proposal_is_gradient_step_witness :
  exists p',
    propose_param 1 1 0 (reset_param (mkParam [0] (Some [2]) empty_state)) = Ok p' /\
    st_new_velocity (p_state p')
    = Some (Tensor.scale (- (1 - exp (- 1 / 1))) [2]) /\
    p_data p'
    = Tensor.add [0] (Tensor.scale 1 (Tensor.scale (- (1 - exp (- 1 / 1))) [2])).
Proof.
  apply (first_proposal_is_gradient_step 1 1 (mkParam [0] (Some [2]) empty_state) [2]).
  - lra.
  - lra.
  - reflexivity.
  - reflexivity.
Defined.

(** ** The first call on a new optimizer *)

Lemma provide_single (f : Provider) (g : Group) :
  provide f [g] = [provide_group f 0 g].
Proof. reflexivity. Qed.

(** X16.  Stated over real numbers: construction and the first call compose.
    On an optimizer that was constructed from a list of tensors with
    [dt > 0], the first [step], with a closure that returns or without one,
    returns and leaves the group initialised, at step count 0, [t = 0],
    [accepted = True], with the [dt] of the constructor.  (With [dt > 0] the
    argument of [math.exp] is negative and cannot overflow.) *)
Theorem first_step_of_new_optimizer
    (ps : list (Tensor * option Tensor)) (tau dt low_bound high_bound : R)
    (o : Optimizer) (closure : option Closure) :
  __init__ (Tensors ps) tau dt low_bound high_bound = Ok o ->
  0 < dt ->
  exists g',
    step closure o = Ok (fst (call_closure closure o), [g']) /\
    g_control g' = Some (mkControl 0 0 true) /\
    g_dt g' = dt.
Proof.
  unfold __init__, Optimizer_init. destruct ps as [|p ps]; intros H Hdt.
  - discriminate H.
  - injection H as <-. set (g := add_param_group _ _).
    assert (Hsingle : exists g1, snd (call_closure closure [g]) = [g1] /\
                                 g_control g1 = None /\ g_tau g1 = tau /\
                                 g_dt g1 = dt).
    { destruct closure as [c|]; simpl.
      - destruct (c [g]) as [l f]. simpl. rewrite provide_single. eauto.
      - eauto. }
    destruct Hsingle as (g1 & E1 & Hc1 & Ht1 & Hd1).
    destruct (propose_reset_ok g1) as [g' Eg'].
    { rewrite Hd1. intros _. lra. }
    exists g'. split.
    + apply step_of_groups. rewrite E1, step_groups_single.
      rewrite (step_group_uninitialised _ _ _ Hc1), Eg'. reflexivity.
    + destruct (propose_frame _ _ _ Eg') as (_ & Ed & _ & _ & Ec & _).
      rewrite Ec, Ed. simpl. auto.
Qed.

(** X16, for the optimizer of the scenario and a closure whose loss is 3. *)
Lemma first_step_of_new_optimizer_witness :
  exists g',
    step (Some (constant_closure 3)) [scenario_constructed 0]
    = Ok (fst (call_closure (Some (constant_closure 3)) [scenario_constructed 0]),
          [g']) /\
    g_control g' = Some (mkControl 0 0 true) /\
    g_dt g' = 1.
Proof.
  apply (first_step_of_new_optimizer [([0], Some [2])] 1 1 0.01 0.1
           [scenario_constructed 0] (Some (constant_closure 3))).
  - reflexivity.
  - lra.
Defined.

(** ** The error estimate is relative *)

Lemma sum_mul_scale (k : R) (x y : Tensor) :
  Tensor.sum (Tensor.mul (Tensor.scale k x) (Tensor.scale k y))
  = k * k * Tensor.sum (Tensor.mul x y).
Proof.
  revert y. induction x as [|a x IH]; intros [|b y];
    unfold Tensor.sum, Tensor.mul, Tensor.scale in *; simpl; try lra.
  rewrite IH. lra.
Qed.

Lemma norm_pow2_scale (k : R) (x : Tensor) :
  Tensor.norm (Tensor.scale k x) ^ 2 = k * k * Tensor.norm x ^ 2.
Proof. rewrite !norm_pow2. apply sum_mul_scale. Qed.

Lemma gradient_sums_scale (k : R) (ps : list Param) (a2 b2 ab : R) :
  gradient_sums (map (scale_gradient k) ps) (k * k * a2, k * k * b2, k * k * ab)
  = match gradient_sums ps (a2, b2, ab) with
    | Ok (a2', b2', ab') => Ok (k * k * a2', k * k * b2', k * k * ab')
    | Raise e => Raise e
    end.
Proof.
  revert a2 b2 ab.
  induction ps as [|p ps IH]; intros a2 b2 ab; cbn [map gradient_sums].
  - reflexivity.
  - unfold scale_gradient at 1 2. cbn [p_grad p_state st_grad].
    destruct (p_grad p) as [pg|]; cbn [option_map]; [|apply IH].
    destruct (st_grad (p_state p)) as [gr|]; cbn [option_map Py.getitem bind];
      [|reflexivity].
    rewrite <- IH. f_equal.
    rewrite !norm_pow2_scale, sum_mul_scale. same_reals.
Qed.

Lemma relnorm_of_scale (k a2 b2 ab : R) :
  k <> 0 -> 0 <= a2 -> 0 <= b2 ->
  relnorm_of (k * k * a2, k * k * b2, k * k * ab) = relnorm_of (a2, b2, ab).
Proof.
  intros Hk Ha Hb. unfold relnorm_of.
  assert (Hkk : 0 < k * k) by nra.
  assert (Hab : 0 <= a2 * b2) by (apply Rmult_le_pos; assumption).
  assert (Hprod : 0 <= k * k * a2 * (k * k * b2))
    by (apply Rmult_le_pos; apply Rmult_le_pos; lra).
  rewrite (math_sqrt_ok _ Hprod), (math_sqrt_ok _ Hab). simpl.
  replace (k * k * a2 * (k * k * b2)) with ((k * k) * (k * k) * (a2 * b2)) by ring.
  rewrite sqrt_mult; [|apply Rmult_le_pos; lra|exact Hab].
  rewrite sqrt_square by lra.
  unfold Py.truediv.
  destruct (Req_dec_T (sqrt (a2 * b2)) 0) as [Ez|Enz].
  - destruct (Req_dec_T (k * k * sqrt (a2 * b2)) 0) as [_|N]; [reflexivity|].
    exfalso. apply N. rewrite Ez. ring.
  - destruct (Req_dec_T (k * k * sqrt (a2 * b2)) 0) as [E|_].
    + exfalso. apply Rmult_integral in E. destruct E; [lra|contradiction].
    + f_equal. field. split; [exact Enz|exact Hk].
Qed.

(** X17.  The acceptance test is relative: multiplying all the gradients, the
    committed and the current ones, by a factor [k <> 0] (as multiplying the
    loss does) leaves the error estimate, value or exception, as it is. *)
Theorem relnorm_scale_invariant (k : R) (g : Group) :
  k <> 0 -> relnorm (scale_gradients k g) = relnorm g.
Proof.
  intros Hk. unfold relnorm. simpl g_params.
  replace (@pair (R * R) R (0, 0) 0) with (k * k * 0, k * k * 0, k * k * 0)
    by same_reals.
  rewrite gradient_sums_scale.
  replace (k * k * 0, k * k * 0, k * k * 0) with (@pair (R * R) R (0, 0) 0)
    by same_reals.
  destruct (gradient_sums (g_params g) (0, 0, 0)) as [[[a2 b2] ab]|e] eqn:Es;
    simpl; [|reflexivity].
  destruct (gradient_sums_nonneg _ _ _ _ _ _ _ (Rle_refl 0) (Rle_refl 0) Es)
    as [Ha Hb].
  apply relnorm_of_scale; assumption.
Qed.

(** X17, for the opposite gradients of the scenario, multiplied by 3. *)
Lemma relnorm_scale_invariant_witness :
  relnorm (scale_gradients 3 (scenario_reversed 0)) = relnorm (scenario_reversed 0).
Proof.
  apply (relnorm_scale_invariant 3 (scenario_reversed 0)). lra.
Defined.

(** ** Calls on initialised groups *)

(** X18.  When every group is initialised, a call that returns has treated the
    groups independently: each group after the call is what the acceptance
    test and the proposal make of that group alone, whatever the other groups
    hold. *)
Theorem initialised_groups_are_independent
    (closure : option Closure) (o o' : Optimizer) (r : option Loss) :
  Forall (fun g => g_control g <> None) o ->
  step closure o = Ok (r, o') ->
  Forall2 (fun g g' => advance_group g = Ok g')
          (snd (call_closure closure o)) o'.
Proof.
  intros Hinit H. apply step_inv in H. destruct H as [_ H].
  apply step_groups_initialised; [|exact H].
  destruct closure as [c|]; simpl.
  - destruct (c o) as [l f]. simpl. unfold provide. generalize 0%nat.
    clear H. induction Hinit as [|g o1 Hg Ho IH]; intros k; simpl.
    + constructor.
    + constructor; [exact Hg|apply IH].
  - exact Hinit.
Qed.

(** The loop body at an initialised group does the same to the group wherever
    the group sits in the optimizer. *)
Lemma step_group_anywhere (o : Optimizer) (i : nat) (g g' : Group) :
  g_control g <> None ->
  step_group [g] 0 g = Ok [g'] ->
  step_group o i g = Ok (update i g' o).
Proof.
  intros Hc H. destruct (g_control g) as [c|] eqn:Ec; [|contradiction].
  rewrite (step_group_initialised _ _ _ c Ec) in H.
  rewrite (step_group_initialised _ _ _ c Ec).
  destruct (acceptance_test g c) as [g1|e]; simpl in *; [|discriminate].
  destruct (Py.getitem (g_control g1)) as [c1|e]; simpl in *; [|discriminate].
  destruct (propose g1 c1) as [g2|e]; simpl in *; [|discriminate].
  injection H as <-. reflexivity.
Qed.

(** With the gradient [-2.0] against the committed [2.0] the step is
    rejected. *)
Lemma scenario_reversed_body (x0 : R) :
  step_group [scenario_reversed x0] 0 (scenario_reversed x0)
  = Ok [scenario_reversed_after x0].
Proof.
  rewrite (step_group_initialised _ _ _ (mkControl 0 0 true)) by reflexivity.
  unfold acceptance_test. rewrite scenario_reversed_relnorm.
  run_model. rdec. run_model. rdec.
  replace (- (1 / 10) / 1) with (- (1 / 10)) by lra.
  same_reals.
Qed.

(** One call on two initialised groups: the first, whose gradient is
    unchanged, accepts; the second, whose gradient is reversed, rejects. *)
Lemma two_initialised_groups_step :
  step None [scenario_first 0; scenario_reversed 7]
  = Ok (None, [scenario_second 0; scenario_reversed_after 7]).
Proof.
  unfold step, call_closure, step_groups. simpl length.
  cbn [step_loop nth_error].
  rewrite (step_group_anywhere _ _ _ (scenario_second 0))
    by (try discriminate; apply scenario_body2).
  cbn [bind update nth_error].
  rewrite (step_group_anywhere _ _ _ (scenario_reversed_after 7))
    by (try discriminate; apply scenario_reversed_body).
  reflexivity.
Qed.

(** X18, at a call on two initialised groups of which the first accepts and
    the second rejects. *)
Lemma initialised_groups_are_independent_witness :
  Forall2 (fun g g' => advance_group g = Ok g')
          (snd (call_closure None [scenario_first 0; scenario_reversed 7]))
          [scenario_second 0; scenario_reversed_after 7].
Proof.
  apply (initialised_groups_are_independent None
           [scenario_first 0; scenario_reversed 7]
           [scenario_second 0; scenario_reversed_after 7] None).
  - repeat constructor; discriminate.
  - apply two_initialised_groups_step.
Defined.

(** ** The step size in binary64 *)

(** C8 (as stated) fails: in the scenario, when the provider answers every
    proposal with the opposite gradient, each call computes [relnorm = 4.0],
    rejects and divides [dt] by 10, and no call raises; after 323 such calls
    the binary64 [dt] is still positive, after 324 it is exactly [0.0]. *)
Lemma dt_underflows_to_zero :
  Binary64.positive (Binary64.s_dt Binary64.scenario_scalars) = true /\
  Binary64.relnorm Binary64.four Binary64.four (PrimFloat.opp Binary64.four)
  = Ok Binary64.four /\
  (exists s, Binary64.opposite_calls 323 = Ok s /\
             Binary64.positive (Binary64.s_dt s) = true) /\
  (exists s, Binary64.opposite_calls 324 = Ok s /\
             Binary64.positive (Binary64.s_dt s) = false /\
             Binary64.s_dt s = PrimFloat.zero).
Proof.
  split; [reflexivity|]. split; [vm_compute; reflexivity|]. split.
  - eexists. split; vm_compute; reflexivity.
  - eexists. split; [vm_compute; reflexivity|]. split; vm_compute; reflexivity.
Qed.
